(** * Slang term analyzer: schema, fan-out, aggregation

    A shallow embedding of [slang_analyzer.py] and of [dashboard.py] (its
    aggregation, what it draws, and its session cache).

    - Python [str] is [string], one character per element.  On text made of
      ASCII characters [str.lower]/[str.upper] fold the letters A-Z / a-z;
      on any other text they are given by the Unicode case tables, which the
      development takes as a parameter ([case_tables]).
    - A Python [dict] is an insertion-ordered association list ([pydict]):
      assigning to an existing key replaces the value in place, assigning to
      a new key appends it.
    - A structured record (the [Dict[str, Any]] returned by
      [parse_single_sonnet]) is a record of optional fields, one per key the
      program ever reads or writes.
    - The remote API is an oracle indexed by the position of the call in its
      batch; an outcome is either a raised [Exception] (with its message) or a
      response.
    - [asyncio.gather] over [run_with_semaphore] is a transition system on a
      semaphore counter and one slot per operation, driven by a scheduler that
      admits queued operations first-come-first-served and lets the
      environment choose which in-flight call completes next. *)

From Stdlib Require Import String Ascii DecimalString.
From Stdlib Require DecimalPos DecimalZ.
From stdpp Require Import base list.
From Stdlib Require Import Sorted Permutation Lia.

Local Open Scope string_scope.

(** ** Strings *)

Definition lower_char (c : ascii) : ascii :=
  let n := nat_of_ascii c in
  if ((65 <=? n) && (n <=? 90))%nat then ascii_of_nat (n + 32) else c.

Definition upper_char (c : ascii) : ascii :=
  let n := nat_of_ascii c in
  if ((97 <=? n) && (n <=? 122))%nat then ascii_of_nat (n - 32) else c.

Fixpoint str_map (f : ascii -> ascii) (s : string) : string :=
  match s with
  | EmptyString => EmptyString
  | String c s' => String (f c) (str_map f s')
  end.

(** Text made of ASCII characters only. *)
Fixpoint is_ascii (s : string) : bool :=
  match s with
  | EmptyString => true
  | String c s' => (nat_of_ascii c <? 128)%nat && is_ascii s'
  end.

(** [str.lower] and [str.upper] on text that is not pure ASCII: the Unicode
    case tables of the interpreter, which are not part of the program. *)
Class case_tables := CaseTables {
  unicode_lower : string -> string;
  unicode_upper : string -> string
}.

(** Tables that leave such text alone; the program is evaluated with them on
    ASCII inputs, where the tables are never consulted. *)
Definition plain_tables : case_tables :=
  {| unicode_lower := fun s => s; unicode_upper := fun s => s |}.

(** Iterating over a [str] yields its characters as one-character strings. *)
Fixpoint chars (s : string) : list string :=
  match s with
  | EmptyString => []
  | String c s' => String c EmptyString :: chars s'
  end.

Fixpoint startswith (p s : string) : bool :=
  match p, s with
  | EmptyString, _ => true
  | String a p', String b s' => if Ascii.eqb a b then startswith p' s' else false
  | String _ _, EmptyString => false
  end.

Definition dquote : string := String (ascii_of_nat 34) EmptyString.
Definition squote : string := String (ascii_of_nat 39) EmptyString.
Definition nl : string := String (ascii_of_nat 10) EmptyString.

Definition str_of_nat (n : nat) : string := NilZero.string_of_uint (Nat.to_uint n).
Definition str_of_Z (z : Z) : string := NilZero.string_of_int (Z.to_int z).

(** ** Dictionaries *)

Module Dict.

Definition pydict (V : Type) : Type := list (string * V).

Fixpoint get {V} (k : string) (d : pydict V) : option V :=
  match d with
  | [] => None
  | (k', v) :: d' => if String.eqb k k' then Some v else get k d'
  end.

(** [d[k] = v] *)
Fixpoint set {V} (k : string) (v : V) (d : pydict V) : pydict V :=
  match d with
  | [] => [(k, v)]
  | (k', v') :: d' =>
      if String.eqb k k' then (k', v) :: d' else (k', v') :: set k v d'
  end.

Definition keys {V} (d : pydict V) : list string := map fst d.
Definition items {V} (d : pydict V) : list (string * V) := d.
Definition mem {V} (k : string) (d : pydict V) : bool :=
  match get k d with Some _ => true | None => false end.

End Dict.

Abbreviation pydict := Dict.pydict.

Section CaseTables.
Context {tables : case_tables}.

Definition lower (s : string) : string :=
  if is_ascii s then str_map lower_char s else unicode_lower s.

Definition upper (s : string) : string :=
  if is_ascii s then str_map upper_char s else unicode_upper s.

(** ** The extraction schema *)

Record string_schema := StringSchema {
  ss_type : string;
  ss_description : string
}.

Record object_schema := ObjectSchema {
  os_properties : pydict string_schema;
  os_required : list string;
  os_description : string
}.

Record tool := Tool {
  tool_name : string;
  tool_description : string;
  prop_term : string_schema;
  prop_primary_meaning : string_schema;
  prop_letter_breakdown : object_schema;
  tool_required : list string
}.

(** The loop [for letter in slang_term.lower(): letter_properties[letter] = ...] *)
Definition letter_schema (letter : string) : string_schema :=
  {| ss_type := "string";
     ss_description :=
       "What the letter " ++ squote ++ upper letter ++ squote
         ++ " stands for in this acronym" |}.

Definition letter_properties (slang_term : string) : pydict string_schema :=
  fold_left (fun d letter => Dict.set letter (letter_schema letter) d)
            (chars (lower slang_term)) [].

Definition parse_tool (slang_term : string) : tool :=
  let props := letter_properties slang_term in
  {| tool_name := "parse_acronym_definition";
     tool_description := "Parse and structure an acronym definition";
     prop_term :=
       {| ss_type := "string";
          ss_description := "The slang term being analyzed" |};
     prop_primary_meaning :=
       {| ss_type := "string";
          ss_description :=
            "The full expansion of the acronym (e.g., " ++ squote
              ++ "You Only Live Once" ++ squote ++ ")" |};
     prop_letter_breakdown :=
       {| os_properties := props;
          os_required := Dict.keys props;
          os_description :=
            "Breakdown of what each letter in the acronym stands for" |};
     tool_required := ["term"; "primary_meaning"; "letter_breakdown"] |}.

(** ** Structured records and the remote API *)

Record parsed := Parsed {
  term : option string;
  primary_meaning : option string;
  letter_breakdown : option (pydict string);
  error : option string
}.

(** A block of [message.content]: a tool call with its input, or a block of
    any other type (text). *)
Inductive content_block :=
| TextBlock (text : string)
| ToolUse (input : parsed).

(** What [await client.messages.create(...)] does: raise, or return the
    message's content. *)
Inductive outcome (A : Type) :=
| Raised (msg : string)
| Returned (a : A).
Arguments Raised {A} msg.
Arguments Returned {A} a.

Record client := Client {
  (** the [i]-th generation call, given its prompt; [Raised] also stands for
      an exception raised by [message.content[0].text] *)
  haiku_create : nat -> string -> outcome string;
  (** the [i]-th extraction call, given the forced tool and the prompt *)
  sonnet_create : nat -> tool -> string -> outcome (list content_block);
  (** [await client.close()] *)
  close_raises : option string
}.

Definition haiku_prompt (slang_term : string) : string :=
  "What could the slang term " ++ dquote ++ slang_term ++ dquote
    ++ " stand for as an acronym? " ++ nl
    ++ "Give me 3-5 creative and plausible interpretations of what each letter could represent."
    ++ nl
    ++ "Be imaginative but keep it reasonable for internet/text slang."
    ++ nl ++ nl
    ++ "Format your response as a simple list, one interpretation per line.".

Definition analyze_single_haiku (c : client) (i : nat) (slang_term : string)
  : string :=
  match haiku_create c i (haiku_prompt slang_term) with
  | Returned text => text
  | Raised e => "Error: " ++ e
  end.

Definition sonnet_prompt (haiku_result slang_term : string) : string :=
  "Parse this interpretation of the slang term " ++ dquote ++ slang_term
    ++ dquote ++ " as an acronym." ++ nl ++ nl
    ++ "Analysis to parse:" ++ nl
    ++ haiku_result ++ nl ++ nl
    ++ "Extract the most likely meaning from this analysis. If multiple interpretations are given, pick the most plausible one.".

(** [for content_block in message.content: if content_block.type == "tool_use": return content_block.input] *)
Fixpoint first_tool_use (blocks : list content_block) : option parsed :=
  match blocks with
  | [] => None
  | ToolUse input :: _ => Some input
  | TextBlock _ :: rest => first_tool_use rest
  end.

Definition parse_single_sonnet (c : client) (i : nat)
    (haiku_result slang_term : string) : parsed :=
  match sonnet_create c i (parse_tool slang_term)
                      (sonnet_prompt haiku_result slang_term) with
  | Returned content =>
      match first_tool_use content with
      | Some input => input
      | None =>
          {| term := Some slang_term;
             primary_meaning := Some "Parse failed - no tool use";
             letter_breakdown := Some [];
             error := None |}
      end
  | Raised e =>
      {| term := Some slang_term;
         primary_meaning := Some "Parse failed";
         letter_breakdown := None;
         error := Some e |}
  end.

(** ** Bounded fan-out: [asyncio.gather] over [run_with_semaphore]

    Each wrapper [run_with_semaphore(task)] is [Queued] until it gets through
    [async with semaphore], [InFlight] while it awaits its coroutine, and
    [Finished r] once the coroutine returned [r] and the semaphore was
    released.  [gather] hands back the results by position. *)

Inductive slot (R : Type) :=
| Queued
| InFlight
| Finished (r : R).
Arguments Queued {R}.
Arguments InFlight {R}.
Arguments Finished {R} r.

Record gate (R : Type) := Gate {
  sem_value : nat;          (* asyncio.Semaphore._value *)
  slots : list (slot R)
}.
Arguments Gate {R} _ _.
Arguments sem_value {R} _.
Arguments slots {R} _.

Inductive event :=
| Enter (i : nat)    (* semaphore.acquire() succeeds for wrapper i *)
| Exit (i : nat).    (* coroutine i returns; semaphore.release() *)

Definition is_queued {R} (s : slot R) : bool :=
  match s with Queued => true | _ => false end.
Definition is_in_flight {R} (s : slot R) : bool :=
  match s with InFlight => true | _ => false end.

Definition count {A} (p : A -> bool) (l : list A) : nat :=
  sum_list ((fun x => if p x then 1 else 0) <$> l).

Definition in_flight {R} (g : gate R) : nat := count is_in_flight (slots g).
Definition queued {R} (g : gate R) : nat := count is_queued (slots g).

Fixpoint find_index {A} (p : A -> bool) (l : list A) : option nat :=
  match l with
  | [] => None
  | x :: l' => if p x then Some 0 else S <$> find_index p l'
  end.

Fixpoint collect {R} (l : list (slot R)) : option (list R) :=
  match l with
  | [] => Some []
  | Finished r :: l' => cons r <$> collect l'
  | _ :: _ => None
  end.

Section Gather.
Context {R : Type}.
Variable K : nat.                 (* the semaphore's initial value *)
Variable ops : nat -> R.          (* what awaiting the i-th coroutine yields *)
Variable pick : list nat -> nat.  (* which in-flight call completes next *)

Definition gather_init (n : nat) : gate R :=
  {| sem_value := K; slots := replicate n Queued |}.

Definition step (g : gate R) (e : event) : option (gate R) :=
  match e with
  | Enter i =>
      match slots g !! i with
      | Some Queued =>
          if (0 <? sem_value g)%nat
          then Some {| sem_value := sem_value g - 1;
                       slots := <[i := InFlight]> (slots g) |}
          else None
      | _ => None
      end
  | Exit i =>
      match slots g !! i with
      | Some InFlight =>
          Some {| sem_value := sem_value g + 1;
                  slots := <[i := Finished (ops i)]> (slots g) |}
      | _ => None
      end
  end.

Fixpoint run (evs : list event) (g : gate R) : option (gate R) :=
  match evs with
  | [] => Some g
  | e :: evs' =>
      match step g e with
      | Some g' => run evs' g'
      | None => None
      end
  end.

Inductive reachable (n : nat) : gate R -> Prop :=
| reach_init : reachable n (gather_init n)
| reach_step g e g' :
    reachable n g -> step g e = Some g' -> reachable n g'.

(** The event loop: waiters are admitted in order while the semaphore has
    a free permit; otherwise one of the calls in flight completes. *)
Definition in_flight_indices (l : list (slot R)) : list nat :=
  fst <$> List.filter (fun p => is_in_flight (snd p)) (imap pair l).

Definition choose_exit (g : gate R) : option event :=
  let i := pick (in_flight_indices (slots g)) in
  match slots g !! i with
  | Some InFlight => Some (Exit i)
  | _ => Exit <$> find_index is_in_flight (slots g)
  end.

Definition next_event (g : gate R) : option event :=
  match find_index is_queued (slots g) with
  | Some i => if (0 <? sem_value g)%nat then Some (Enter i) else choose_exit g
  | None => choose_exit g
  end.

Fixpoint drive (fuel : nat) (g : gate R) : gate R :=
  match fuel with
  | 0 => g
  | S fuel' =>
      match next_event g with
      | Some e =>
          match step g e with
          | Some g' => drive fuel' g'
          | None => g
          end
      | None => g
      end
  end.

(** [await asyncio.gather] of the [n] wrappers [run_with_semaphore(task)];
    every operation takes two events. *)
Definition gather (n : nat) : option (list R) :=
  collect (slots (drive (2 * n) (gather_init n))).

End Gather.

(** ** The two batches *)

Definition semaphore_permits : nat := 10.

(** [not r.startswith("Error:")] *)
Definition not_error_output (r : string) : bool :=
  negb (startswith "Error:" r).

Definition analyze_with_haiku (pick : list nat -> nat) (c : client)
    (slang_term : string) (num_runs : Z) : option (list string) :=
  let n := Z.to_nat num_runs in      (* range(num_runs) *)
  results ← gather semaphore_permits
              (fun i => analyze_single_haiku c i slang_term) pick n;
  Some (List.filter not_error_output results).

Definition parse_with_sonnet (pick : list nat -> nat) (c : client)
    (haiku_results : list string) (slang_term : string)
  : option (list parsed) :=
  gather semaphore_permits
    (fun i => parse_single_sonnet c i (nth i haiku_results "") slang_term)
    pick (length haiku_results).

(** ** Frequency counts: [collections.Counter]

    [Counter(xs)] counts in first-seen order; [most_common(n)] lists the [n]
    largest counts, equal counts in the order first encountered. *)

Definition Counter (xs : list string) : pydict nat :=
  fold_left (fun d x => Dict.set x (S (default 0 (Dict.get x d))) d) xs [].

Fixpoint insert_desc (p : string * nat) (l : list (string * nat))
  : list (string * nat) :=
  match l with
  | [] => [p]
  | q :: l' =>
      if (snd q <=? snd p)%nat then p :: q :: l' else q :: insert_desc p l'
  end.

Definition sort_desc (l : list (string * nat)) : list (string * nat) :=
  foldr insert_desc [] l.

Definition most_common (n : nat) (d : pydict nat) : list (string * nat) :=
  take n (sort_desc (Dict.items d)).

(** ** The pipeline and the command line *)

(** A computation that prints to standard output and returns or raises;
    [None] stands for a computation that does not come back. *)
Definition io (A : Type) : Type :=
  list string -> option (list string * outcome A).

Definition io_ret {A} (a : A) : io A := fun out => Some (out, Returned a).
Definition io_raise {A} (e : string) : io A := fun out => Some (out, Raised e).
Definition io_bind {A B} (m : io A) (k : A -> io B) : io B :=
  fun out =>
    match m out with
    | Some (out', Returned a) => k a out'
    | Some (out', Raised e) => Some (out', Raised e)
    | None => None
    end.
Definition print (line : string) : io unit :=
  fun out => Some ((out ++ [line])%list, Returned tt).
Definition io_lift {A} (o : outcome A) : io A := fun out => Some (out, o).
Definition await {A} (o : option A) : io A :=
  fun out => match o with Some a => Some (out, Returned a) | None => None end.

Notation "x <- m ;; k" := (io_bind m (fun x => k))
  (at level 100, m at next level, right associativity).
Notation "m ;;; k" := (io_bind m (fun _ => k))
  (at level 100, right associativity).

(** [try: body finally: cleanup] *)
Definition try_finally {A} (body : io A) (cleanup : io unit) : io A :=
  fun out =>
    match body out with
    | Some (out', r) =>
        match cleanup out' with
        | Some (out'', Returned _) => Some (out'', r)
        | Some (out'', Raised e) => Some (out'', Raised e)
        | None => None
        end
    | None => None
    end.

(** [try: body except Exception as e: handler] *)
Definition try_except {A} (body : io A) (handler : string -> io A) : io A :=
  fun out =>
    match body out with
    | Some (out', Raised e) => handler e out'
    | r => r
    end.

Fixpoint print_each (lines : list string) : io unit :=
  match lines with
  | [] => io_ret tt
  | l :: rest => print l ;;; print_each rest
  end.

Record world := World {
  (** [os.getenv('ANTHROPIC_API_KEY')] *)
  env_api_key : option string;
  (** [anthropic.AsyncAnthropic(api_key=api_key)] *)
  connect : string -> outcome client;
  (** completion order of the calls of each batch *)
  haiku_order : list nat -> nat;
  sonnet_order : list nat -> nat
}.

Definition get_api_key (w : world) : outcome string :=
  match env_api_key w with
  | None => Raised "ANTHROPIC_API_KEY environment variable not set"
  | Some api_key =>
      (* [if not api_key] *)
      if String.eqb api_key "" then
        Raised "ANTHROPIC_API_KEY environment variable not set"
      else Returned api_key
  end.

Record analysis := Analysis {
  haiku_results : list string;
  parsed_results : list parsed
}.

Definition client_close (c : client) : io unit :=
  match close_raises c with
  | Some e => io_raise e
  | None => io_ret tt
  end.

Definition run_analysis (w : world) (slang_term : string) (sample_size : Z)
  : io analysis :=
  api_key <- io_lift (get_api_key w) ;;
  c <- io_lift (connect w api_key) ;;
  try_finally
    (print ("Analyzing " ++ squote ++ slang_term ++ squote ++ " with "
              ++ str_of_Z sample_size ++ " samples...") ;;;
     hs <- await (analyze_with_haiku (haiku_order w) c slang_term sample_size) ;;
     print ("Generated " ++ str_of_nat (length hs) ++ " interpretations") ;;;
     ps <- await (parse_with_sonnet (sonnet_order w) c hs slang_term) ;;
     print ("Parsed " ++ str_of_nat (length ps) ++ " results") ;;;
     io_ret {| haiku_results := hs; parsed_results := ps |})
    (client_close c).

(** ['error' not in r] *)
Definition no_error (r : parsed) : bool :=
  match error r with None => true | Some _ => false end.

Definition cli_valid_results (rs : list parsed) : list parsed :=
  List.filter no_error rs.

Definition cli_meanings (rs : list parsed) : list string :=
  map (fun r => default "" (primary_meaning r)) (cli_valid_results rs).

Definition summary_line (i : nat) (entry : string * nat) : string :=
  str_of_nat (i + 1) ++ ". " ++ fst entry ++ " (" ++ str_of_nat (snd entry)
    ++ " times)".

Definition summary_lines (rs : list parsed) : list string :=
  imap summary_line (most_common 5 (Counter (cli_meanings rs))).

Definition main (w : world) (slang_term : string) (sample_size : Z)
  : io unit :=
  try_except
    (results <- run_analysis w slang_term sample_size ;;
     print (nl ++ "=== Results for " ++ squote ++ slang_term ++ squote
               ++ " ===") ;;;
     print ("Valid results: "
              ++ str_of_nat (length (cli_valid_results (parsed_results results)))) ;;;
     print (nl ++ "Top interpretations:") ;;;
     print_each (summary_lines (parsed_results results)))
    (fun e => print ("Error: " ++ e)).

(** The interpreter's exit status for [if __name__ == "__main__": main()]:
    0 when [main] returns, 1 when an exception escapes it. *)
Definition exit_status {A} (r : outcome A) : Z :=
  match r with
  | Returned _ => 0
  | Raised _ => 1
  end.

Definition script (w : world) (slang_term : string) (sample_size : Z)
  : option (list string * Z) :=
  match main w slang_term sample_size [] with
  | Some (out, r) => Some (out, exit_status r)
  | None => None
  end.

(** ** The dashboard's aggregation ([display_results]) *)

(** [r.get("primary_meaning")] as a condition *)
Definition has_primary (r : parsed) : bool :=
  match primary_meaning r with
  | Some s => negb (String.eqb s "")
  | None => false
  end.

Definition valid_result (r : parsed) : bool := has_primary r && no_error r.

(** [if letter not in letter_aggregation: letter_aggregation[letter] = []]
    followed by [letter_aggregation[letter].append(meaning)] *)
Definition bucket_append (agg : pydict (list string)) (item : string * string)
  : pydict (list string) :=
  Dict.set (fst item) (default [] (Dict.get (fst item) agg) ++ [snd item])%list agg.

Definition letter_aggregation (valid_results : list parsed)
  : pydict (list string) :=
  fold_left
    (fun agg result =>
       fold_left bucket_append
         (Dict.items (default [] (letter_breakdown result))) agg)
    valid_results [].

Record aggregate := Aggregate {
  agg_valid : list parsed;
  meaning_counts : pydict nat;
  letter_buckets : pydict (list string)
}.

(** [None] is the early return after [st.error("No valid results to display")]. *)
Definition display_results (results : analysis) : option aggregate :=
  let valid_results := List.filter valid_result (parsed_results results) in
  match valid_results with
  | [] => None
  | _ =>
      let all_meanings :=
        map (fun r => default "" (primary_meaning r)) valid_results in
      Some {| agg_valid := valid_results;
              meaning_counts := Counter all_meanings;
              letter_buckets := letter_aggregation valid_results |}
  end.

Definition demo_client : client :=
  {| haiku_create := fun i _ =>
       if Nat.eqb i 1 then Raised "timeout" else Returned "You Only Live Once";
     sonnet_create := fun i _ _ =>
       if Nat.eqb i 0 then Raised "overloaded"
       else Returned [TextBlock "ok"];
     close_raises := None |}.


Definition last_first (l : list nat) : nat := List.last l 0.

Definition demo_world (k : option string) : world :=
  {| env_api_key := k;
     connect := fun _ => Returned demo_client;
     haiku_order := last_first;
     sonnet_order := last_first |}.

Definition yolo_record : parsed :=
  {| term := Some "YOLO";
     primary_meaning := Some "You Only Live Once";
     letter_breakdown := Some [("y", "You"); ("o", "Only"); ("l", "Live")];
     error := None |}.

(** A schema-conformant tool input whose primary meaning is the empty string. *)
Definition blank_record : parsed :=
  {| term := Some "YOLO";
     primary_meaning := Some "";
     letter_breakdown := Some [("y", "You"); ("o", "Only"); ("l", "Live")];
     error := None |}.

Definition blank_client : client :=
  {| haiku_create := fun _ _ => Returned "You Only Live Once";
     sonnet_create := fun _ _ _ => Returned [ToolUse blank_record];
     close_raises := None |}.

Definition blank_world : world :=
  {| env_api_key := Some "sk-test";
     connect := fun _ => Returned blank_client;
     haiku_order := last_first;
     sonnet_order := last_first |}.

(** Generation outputs "A", a failed call, "B". *)
Definition abc_client : client :=
  {| haiku_create := fun i _ =>
       match i with
       | 0 => Returned "A"
       | 1 => Raised "timeout"
       | _ => Returned "B"
       end;
     sonnet_create := fun _ _ _ => Returned [ToolUse yolo_record];
     close_raises := None |}.

(** ** Reference notions used in the statements *)

(** The distinct elements of a list, in the order they first appear. *)
Fixpoint first_seen (xs : list string) : list string :=
  match xs with
  | [] => []
  | x :: xs' => x :: List.filter (fun y => negb (String.eqb x y)) (first_seen xs')
  end.

Definition str_in (k : string) (ks : list string) : bool :=
  existsb (String.eqb k) ks.

(** Every (letter, meaning) pair of a list of records, in iteration order. *)
Definition breakdown_items (rs : list parsed) : list (string * string) :=
  concat (map (fun r => Dict.items (default [] (letter_breakdown r))) rs).

Definition values_of (k : string) (items : list (string * string))
  : list string :=
  map snd (List.filter (fun p => String.eqb k (fst p)) items).

Definition has_count (c : nat) (p : string * nat) : bool := Nat.eqb (snd p) c.

Definition count_ge (p q : string * nat) : Prop := snd q <= snd p.

(** What the [i]-th generation call of a batch of [n] hands back, by position. *)
Definition generation_outputs (c : client) (slang_term : string) (n : nat)
  : list string :=
  (fun i => analyze_single_haiku c i slang_term) <$> seq 0 n.

(** The record of the call made for the candidate at each position. *)
Definition structuring_outputs (c : client) (hs : list string)
    (slang_term : string) : list parsed :=
  imap (fun i h => parse_single_sonnet c i h slang_term) hs.

Definition progress_lines (slang_term : string) (sample_size : Z)
    (hs : list string) (ps : list parsed) : list string :=
  [ "Analyzing " ++ squote ++ slang_term ++ squote ++ " with "
      ++ str_of_Z sample_size ++ " samples...";
    "Generated " ++ str_of_nat (length hs) ++ " interpretations";
    "Parsed " ++ str_of_nat (length ps) ++ " results" ].

Definition report_lines (slang_term : string) (ps : list parsed)
  : list string :=
  app [ nl ++ "=== Results for " ++ squote ++ slang_term ++ squote ++ " ===";
        "Valid results: " ++ str_of_nat (length (cli_valid_results ps));
        nl ++ "Top interpretations:" ]
      (summary_lines ps).

Definition error_record (slang_term e : string) : parsed :=
  {| term := Some slang_term;
     primary_meaning := Some "Parse failed";
     letter_breakdown := None;
     error := Some e |}.

(** ** Invariants of the admission gate *)

Definition measure {R} (g : gate R) : nat := 2 * queued g + in_flight g.

Definition gate_inv {R} (K : nat) (ops : nat -> R) (n : nat) (g : gate R)
  : Prop :=
  length (slots g) = n
  /\ sem_value g + in_flight g = K
  /\ forall i r, slots g !! i = Some (Finished r) -> r = ops i.

(** ** The dashboard ([dashboard.py])

    Streamlit calls that only draw are recorded as events; what
    [display_results] computes for the page is a record.  [st.session_state]
    is a dictionary whose entries are either results stored by [main] or
    values kept there by the Streamlit runtime for keyed widgets: rendering a
    widget with [key=...] puts its value under that key, and after a run
    that did not render the widget the entry is gone. *)

(** [str.isspace] on ASCII: tab, newline, vertical tab, form feed, carriage
    return, the separators 28-31 and the space. *)
Definition is_space (c : ascii) : bool :=
  let n := nat_of_ascii c in
  (((9 <=? n) && (n <=? 13)) || ((28 <=? n) && (n <=? 32)))%nat.

Fixpoint lstrip (s : string) : string :=
  match s with
  | EmptyString => EmptyString
  | String c s' => if is_space c then lstrip s' else s
  end.

Fixpoint rstrip (s : string) : string :=
  match s with
  | EmptyString => EmptyString
  | String c s' =>
      match rstrip s' with
      | EmptyString => if is_space c then EmptyString else String c EmptyString
      | r => String c r
      end
  end.

Definition strip (s : string) : string := rstrip (lstrip s).

Inductive widget :=
| HaikuProgress
| HaikuStatus
| SonnetProgress
| SonnetStatus.

Inductive ui_event :=
| SetProgress (wd : widget) (tenths : nat)   (* progress(0), progress(0.1), progress(1.0) *)
| SetText (wd : widget) (msg : string)
| StError (msg : string)
| StInfo (msg : string)
| Uncaught (msg : string)                    (* an exception no handler catches *)
| KeyedWidget (key value : string).          (* a widget rendered with key=..., and its value *)

Inductive session_value :=
| SResults (results : analysis)
| SWidget (value : string).

(** [None]: the call does not come back; [Some (events, None)]: the
    [return None] after [st.error]. *)
Definition run_analysis_with_progress (w : world) (slang_term : string)
    (sample_size : Z) (api_key : string)
  : option (list ui_event * option analysis) :=
  let setup := [SetProgress HaikuProgress 0; SetProgress SonnetProgress 0] in
  match connect w api_key with
  | Raised e =>
      Some (app setup [StError ("Error during analysis: " ++ e)], None)
  | Returned c =>
      hs ← analyze_with_haiku (haiku_order w) c slang_term sample_size;
      ps ← parse_with_sonnet (sonnet_order w) c hs slang_term;
      let body :=
        [ SetText HaikuStatus
            "🎭 Claude 3.5 Haiku generating creative interpretations...";
          SetProgress HaikuProgress 1;
          SetProgress HaikuProgress 10;
          SetText SonnetStatus
            "🧠 Claude 4 Sonnet parsing interpretations into structured data...";
          SetProgress SonnetProgress 1;
          SetProgress SonnetProgress 10 ] in
      match close_raises c with
      | Some e =>
          Some (app setup (app body [StError ("Error during analysis: " ++ e)]),
                None)
      | None =>
          Some (app setup
                  (app body
                     [ SetText HaikuStatus "✅ Haiku generation complete!";
                       SetText SonnetStatus "✅ Sonnet parsing complete!" ]),
                Some {| haiku_results := hs; parsed_results := ps |})
      end
  end.

(** The two pie charts: [top = counts.most_common(m)], and beyond [limit]
    entries the first [keep] are shown and the rest is summed into "Others". *)
Definition with_others (keep limit : nat) (top : list (string * nat))
  : list (string * nat) :=
  if (limit <? length top)%nat then
    let displayed := take keep top in
    let others_count := sum_list_with snd (drop keep top) in
    if (0 <? others_count)%nat
    then app displayed [("Others", others_count)]
    else displayed
  else top.

Definition top_slices (meaning_counts : pydict nat) : list (string * nat) :=
  with_others 5 6 (most_common 8 meaning_counts).

Definition letter_slices (letter_counts : pydict nat) : list (string * nat) :=
  with_others 4 5 (most_common 6 letter_counts).

(** [meaning_counts.most_common(1)[0][0] if meaning_counts else "N/A"];
    indexing an empty list would raise, which the inner default stands for. *)
Definition top_interpretation (meaning_counts : pydict nat) : string :=
  match meaning_counts with
  | [] => "N/A"
  | _ =>
      match most_common 1 meaning_counts with
      | (m, _) :: _ => m
      | [] => "N/A"
      end
  end.

(** [most_common[:30] + "..." if len(most_common) > 30 else most_common] *)
Definition caption (most : string) : string :=
  if (30 <? String.length most)%nat
  then String.substring 0 30 most ++ "..."
  else most.

(** [letters.index(x)] *)
Fixpoint index_of (x : string) (letters : list string) : nat :=
  match letters with
  | [] => 0
  | y :: rest => if String.eqb x y then 0 else S (index_of x rest)
  end.

Definition letter_label (letters : list string) (x : string) : string :=
  upper x ++ " (position " ++ str_of_nat (index_of x letters + 1) ++ ")".

Inductive letter_view :=
| LetterPie (slices : list (string * nat))
| LetterNothing                      (* the bucket exists but is empty *)
| LetterNoData.                      (* st.info("No data available ...") *)

Record dashboard_view := DashboardView {
  view_term : string;
  view_valid : nat;
  view_unique : nat;
  view_caption : string;
  view_top : list (string * nat);
  view_letters : list string;
  view_labels : list string;
  view_selected : string;
  view_letter : letter_view
}.

(** [key=f"letter_selector_{slang_term}"] *)
Definition selector_key (slang_term : string) : string :=
  "letter_selector_" ++ slang_term.

(** [display_results] as drawn; [choice] is the position picked in the
    letter selector (0 when untouched). *)
Definition display_results_view (slang_term : string) (results : analysis)
    (choice : nat) : list ui_event * option dashboard_view :=
  match display_results results with
  | None => ([StError "No valid results to display"], None)
  | Some agg =>
      let letters := chars (lower slang_term) in
      let selected_letter := nth choice letters "" in
      let lview :=
        match Dict.get selected_letter (letter_buckets agg) with
        | Some letter_meanings =>
            match Counter letter_meanings with
            | [] => LetterNothing
            | letter_counts => LetterPie (letter_slices letter_counts)
            end
        | None => LetterNoData
        end in
      (KeyedWidget (selector_key slang_term) selected_letter
         :: match lview with
            | LetterNoData =>
                [StInfo ("No data available for letter " ++ squote
                           ++ upper selected_letter ++ squote)]
            | _ => []
            end,
       Some {| view_term := slang_term;
               view_valid := length (agg_valid agg);
               view_unique := length (meaning_counts agg);
               view_caption := caption (top_interpretation (meaning_counts agg));
               view_top := top_slices (meaning_counts agg);
               view_letters := letters;
               view_labels := map (letter_label letters) letters;
               view_selected := selected_letter;
               view_letter := lview |})
  end.

Definition results_key (slang_term : string) (sample_size : Z) : string :=
  "results_" ++ slang_term ++ "_" ++ str_of_Z sample_size.

(** [for key in list(st.session_state.keys()): if key.startswith("results_"):
    del st.session_state[key]] *)
Definition clear_results (session : pydict session_value)
  : pydict session_value :=
  List.filter (fun kv => negb (startswith "results_" (fst kv))) session.

Record page := Page {
  page_session : pydict session_value;
  page_events : list ui_event;
  page_view : option dashboard_view
}.

(** The keyed widgets a run has rendered, with their values. *)
Definition widget_writes (events : list ui_event) : list (string * string) :=
  omap (fun e => match e with
                 | KeyedWidget k v => Some (k, v)
                 | _ => None
                 end) events.

(** Rendering a keyed widget puts its value into the session. *)
Definition apply_widgets (session : pydict session_value)
    (events : list ui_event) : pydict session_value :=
  fold_left (fun s kv => Dict.set (fst kv) (SWidget (snd kv)) s)
            (widget_writes events) session.

(** An entry is stale when it is the value of a widget that the run has not
    rendered. *)
Definition stale (session : pydict session_value) (events : list ui_event)
    (k : string) : bool :=
  match Dict.get k session with
  | Some (SWidget _) => negb (str_in k (map fst (widget_writes events)))
  | _ => false
  end.

(** When the script has run, Streamlit drops the stale entries. *)
Definition end_of_run (pg : page) : page :=
  {| page_session :=
       List.filter
         (fun kv => negb (stale (page_session pg) (page_events pg) (fst kv)))
         (page_session pg);
     page_events := page_events pg;
     page_view := page_view pg |}.

(** The entry under a key when the script stored it there; none when the
    key is free or holds a widget's value. *)
Definition script_entry (session : pydict session_value) (k : string)
  : option session_value :=
  match Dict.get k session with
  | Some (SResults r) => Some (SResults r)
  | _ => None
  end.

(** [if results_key in st.session_state: display_results(...)] *)
Definition show_cached (session : pydict session_value) (events : list ui_event)
    (slang_term key : string) (choice : nat) : page :=
  match Dict.get key session with
  | Some (SResults results) =>
      let (evs, v) := display_results_view slang_term results choice in
      {| page_session := apply_widgets session evs;
         page_events := app events evs;
         page_view := v |}
  | Some (SWidget _) =>
      {| page_session := session;
         page_events := app events [Uncaught "TypeError"];
         page_view := None |}
  | None =>
      {| page_session := session; page_events := events; page_view := None |}
  end.

(** The body of [main]: the sidebar inputs, the session state before, and the
    page when [main] returns. *)
Definition dashboard_script (w : world) (session : pydict session_value)
    (text_input : string) (sample_size : Z) (analyze_button : bool)
    (choice : nat) : option page :=
  let slang_term := strip (upper text_input) in
  if String.eqb slang_term "" then
    Some {| page_session := session;
            page_events :=
              [StInfo "👆 Enter a slang term in the sidebar to get started!"];
            page_view := None |}
  else
    let key := results_key slang_term sample_size in
    if analyze_button || negb (Dict.mem key session) then
      if analyze_button then
        let session1 := clear_results session in
        match get_api_key w with
        | Raised e =>
            Some {| page_session := session1;
                    page_events :=
                      [ StError ("Error getting API key: " ++ e);
                        StInfo "Please set your ANTHROPIC_API_KEY environment variable" ];
                    page_view := None |}
        | Returned api_key =>
            match run_analysis_with_progress w slang_term sample_size api_key with
            | None => None
            | Some (evs, Some results) =>
                Some (show_cached (Dict.set key (SResults results) session1)
                                  evs slang_term key choice)
            | Some (evs, None) =>
                Some {| page_session := session1;
                        page_events :=
                          app evs [StError "Analysis failed. Please try again."];
                        page_view := None |}
            end
        end
      else Some (show_cached session [] slang_term key choice)
    else Some (show_cached session [] slang_term key choice).

(** One run of the dashboard: [main], then the end of the script run. *)
Definition dashboard_main (w : world) (session : pydict session_value)
    (text_input : string) (sample_size : Z) (analyze_button : bool)
    (choice : nat) : option page :=
  end_of_run <$>
    dashboard_script w session text_input sample_size analyze_button choice.

(** What a generation call contributes to the batch: its text, unless the
    call raised or the text itself starts with the error marker. *)
Definition surviving_text (o : outcome string) : option string :=
  match o with
  | Returned text => if startswith "Error:" text then None else Some text
  | Raised _ => None
  end.

(** A string made of whitespace only. *)
Fixpoint all_space (s : string) : bool :=
  match s with
  | EmptyString => true
  | String c s' => is_space c && all_space s'
  end.

Definition demo_session : pydict session_value :=
  [ ("results_FOMO_50",
     SResults {| haiku_results := ["x"]; parsed_results := [yolo_record] |});
    ("letter_selector_FOMO", SWidget "f") ].

(** * Facts *)

Example yolo_keys : Dict.keys (letter_properties "YOLO") = ["y"; "o"; "l"].
Proof. reflexivity. Qed.

Section DictFacts.
Context {V : Type}.
Implicit Types (d : pydict V) (k : string) (v : V).

Lemma mem_keys k d : Dict.mem k d = str_in k (Dict.keys d).
Proof.
  unfold Dict.mem. induction d as [|[k' v'] d IH]; simpl; [done|].
  destruct (String.eqb k k'); [done|]. apply IH.
Qed.

Lemma get_set_eq k v d : Dict.get k (Dict.set k v d) = Some v.
Proof.
  induction d as [|[k' v'] d IH]; simpl.
  - by rewrite String.eqb_refl.
  - destruct (String.eqb k k') eqn:E; simpl; rewrite E; [done|apply IH].
Qed.

Lemma get_set_ne k k' v d :
  k <> k' -> Dict.get k' (Dict.set k v d) = Dict.get k' d.
Proof.
  intros Hne. induction d as [|[k0 v0] d IH]; simpl.
  - apply String.eqb_neq in Hne. rewrite String.eqb_sym in Hne.
    by rewrite Hne.
  - destruct (String.eqb k k0) eqn:E; simpl.
    + apply String.eqb_eq in E as ->.
      assert (String.eqb k' k0 = false) as ->; [|done].
      apply String.eqb_neq. congruence.
    + by rewrite IH.
Qed.

Lemma keys_set k v d :
  Dict.keys (Dict.set k v d)
  = if Dict.mem k d then Dict.keys d else (Dict.keys d ++ [k])%list.
Proof.
  unfold Dict.mem. induction d as [|[k' v'] d IH]; simpl; [done|].
  destruct (String.eqb k k') eqn:E; simpl; [done|].
  rewrite IH. by destruct (Dict.get k d).
Qed.
End DictFacts.

Section FirstSeen.
Implicit Types (xs ks : list string).

Lemma str_in_true k ks : str_in k ks = true <-> In k ks.
Proof.
  unfold str_in. rewrite existsb_exists. split.
  - intros (y & Hy & E). apply String.eqb_eq in E. by subst.
  - intros H. exists k. split; [done|apply String.eqb_refl].
Qed.

Lemma str_in_app k ks ks' : str_in k (ks ++ ks') = str_in k ks || str_in k ks'.
Proof. apply existsb_app. Qed.

Lemma first_seen_In x xs : In x (first_seen xs) <-> In x xs.
Proof.
  induction xs as [|y xs IH]; simpl; [done|].
  rewrite List.filter_In, IH. split.
  - intros [?|[? _]]; auto.
  - intros [?|?]; [auto|].
    destruct (String.eqb y x) eqn:E.
    + apply String.eqb_eq in E. auto.
    + auto.
Qed.

Lemma first_seen_NoDup xs : NoDup (first_seen xs).
Proof.
  apply NoDup_ListNoDup.
  induction xs as [|y xs IH]; simpl; constructor.
  - rewrite List.filter_In. intros [_ H].
    by rewrite String.eqb_refl in H.
  - by apply List.NoDup_filter.
Qed.

Lemma first_seen_length xs : length (first_seen xs) <= length xs.
Proof.
  induction xs as [|y xs IH]; simpl; [done|].
  pose proof (List.filter_length_le
                (fun z => negb (String.eqb y z)) (first_seen xs)). lia.
Qed.

Lemma filter_filter_bool {A} (p q : A -> bool) (l : list A) :
  List.filter p (List.filter q l) = List.filter (fun x => q x && p x) l.
Proof.
  induction l as [|x l IH]; simpl; [done|].
  destruct (q x); simpl; [|done]. destruct (p x); by rewrite IH.
Qed.

(** Keys after a loop of assignments [d[key x] = ...]. *)
Lemma keys_fold_set {V B} (key : B -> string) (f : B -> pydict V -> V)
    (xs : list B) (d : pydict V) :
  Dict.keys (fold_left (fun d x => Dict.set (key x) (f x d) d) xs d)
  = (Dict.keys d
     ++ List.filter (fun y => negb (str_in y (Dict.keys d)))
          (first_seen (map key xs)))%list.
Proof.
  revert d. induction xs as [|x xs IH]; intros d; simpl.
  - by rewrite app_nil_r.
  - rewrite IH, keys_set, mem_keys.
    destruct (str_in (key x) (Dict.keys d)) eqn:Hin; simpl.
    + f_equal. rewrite filter_filter_bool. apply List.filter_ext.
      intros y. destruct (String.eqb (key x) y) eqn:E; simpl; [|done].
      apply String.eqb_eq in E as <-. by rewrite Hin.
    + rewrite <- app_assoc. simpl. f_equal. f_equal.
      rewrite filter_filter_bool. apply List.filter_ext.
      intros y. rewrite str_in_app. simpl.
      rewrite orb_false_r, negb_orb, String.eqb_sym. apply andb_comm.
Qed.

Lemma keys_fold_set_nil {V B} (key : B -> string) (f : B -> pydict V -> V)
    (xs : list B) :
  Dict.keys (fold_left (fun d x => Dict.set (key x) (f x d) d) xs [])
  = first_seen (map key xs).
Proof.
  rewrite keys_fold_set. simpl.
  induction (first_seen (map key xs)) as [|y l IH]; simpl; [done|].
  by rewrite IH.
Qed.
End FirstSeen.

Section CountFacts.
Context {A : Type}.
Implicit Types (p : A -> bool) (l : list A).

Lemma count_cons p x l :
  count p (x :: l) = (if p x then 1 else 0) + count p l.
Proof. reflexivity. Qed.

Lemma count_insert p l i x y :
  l !! i = Some x ->
  count p (<[i:=y]> l) + (if p x then 1 else 0)
  = count p l + (if p y then 1 else 0).
Proof.
  revert i. induction l as [|z l IH]; intros [|i] H; simplify_eq/=.
  - rewrite !count_cons. lia.
  - rewrite !count_cons. specialize (IH _ H). lia.
Qed.

Lemma find_index_Some p l i :
  find_index p l = Some i -> exists x, l !! i = Some x /\ p x = true.
Proof.
  revert i. induction l as [|z l IH]; intros i H; simpl in H; [done|].
  destruct (p z) eqn:Hz.
  - simplify_eq. eauto.
  - destruct (find_index p l) as [j|]; simplify_eq/=. eauto.
Qed.

Lemma find_index_None p l : find_index p l = None -> count p l = 0.
Proof.
  induction l as [|z l IH]; simpl; [done|].
  destruct (p z) eqn:Hz; [done|].
  destruct (find_index p l); [done|]. intros _.
  rewrite count_cons, Hz. auto.
Qed.

Lemma count_replicate_false p x n : p x = false -> count p (replicate n x) = 0.
Proof. intros Hx. induction n; simpl; [done|]. rewrite count_cons, Hx. auto. Qed.

Lemma count_replicate_true p x n : p x = true -> count p (replicate n x) = n.
Proof. intros Hx. induction n; simpl; [done|]. rewrite count_cons, Hx. auto. Qed.
End CountFacts.

Section AggregationFacts.

Lemma dict_eta {V} (v0 : V) (d : pydict V) :
  NoDup (Dict.keys d) ->
  d = map (fun k => (k, default v0 (Dict.get k d))) (Dict.keys d).
Proof.
  induction d as [|[k v] d IH]; simpl; [done|].
  intros Hnd. apply NoDup_cons in Hnd as [Hk Hnd].
  rewrite String.eqb_refl. simpl. f_equal.
  rewrite (IH Hnd) at 1. apply map_ext_in. intros k' Hk'.
  destruct (String.eqb k' k) eqn:E; [|done].
  apply String.eqb_eq in E as ->. by apply list_elem_of_In in Hk'.
Qed.

Lemma counter_get_fold x xs (d : pydict nat) :
  default 0 (Dict.get x
    (fold_left (fun d y => Dict.set y (S (default 0 (Dict.get y d))) d) xs d))
  = default 0 (Dict.get x d) + count (String.eqb x) xs.
Proof.
  revert d. induction xs as [|y xs IH]; intros d; simpl.
  - unfold count. simpl. lia.
  - rewrite IH, count_cons. destruct (String.eqb x y) eqn:E.
    + apply String.eqb_eq in E as <-. rewrite get_set_eq. simpl. lia.
    + apply String.eqb_neq in E. rewrite get_set_ne by congruence. lia.
Qed.

Lemma counter_keys xs : Dict.keys (Counter xs) = first_seen xs.
Proof.
  unfold Counter.
  rewrite (keys_fold_set_nil id (fun y d => S (default 0 (Dict.get y d)))).
  by rewrite map_id.
Qed.

Lemma counter_items xs :
  Dict.items (Counter xs)
  = map (fun k => (k, count (String.eqb k) xs)) (first_seen xs).
Proof.
  unfold Dict.items.
  rewrite (dict_eta 0 (Counter xs)) at 1
    by (rewrite counter_keys; apply first_seen_NoDup).
  rewrite counter_keys. apply map_ext. intros k.
  unfold Counter. by rewrite counter_get_fold.
Qed.

Lemma fold_left_concat {A B C} (f : A -> B -> A) (g : C -> list B)
    (rs : list C) (a : A) :
  fold_left (fun a r => fold_left f (g r) a) rs a
  = fold_left f (concat (map g rs)) a.
Proof.
  revert a. induction rs as [|r rs IH]; intros a; simpl; [done|].
  by rewrite fold_left_app, IH.
Qed.

Lemma letter_aggregation_flat rs :
  letter_aggregation rs = fold_left bucket_append (breakdown_items rs) [].
Proof. apply fold_left_concat. Qed.

Lemma bucket_get_fold k items (agg : pydict (list string)) :
  default [] (Dict.get k (fold_left bucket_append items agg))
  = (default [] (Dict.get k agg) ++ values_of k items)%list.
Proof.
  revert agg. induction items as [|[l m] items IH]; intros agg; simpl.
  - by rewrite app_nil_r.
  - rewrite IH. unfold bucket_append, values_of. simpl.
    destruct (String.eqb k l) eqn:E.
    + apply String.eqb_eq in E as <-. rewrite get_set_eq. simpl.
      by rewrite <- app_assoc.
    + apply String.eqb_neq in E. by rewrite get_set_ne by congruence.
Qed.

Lemma letter_aggregation_keys rs :
  Dict.keys (letter_aggregation rs) = first_seen (map fst (breakdown_items rs)).
Proof.
  rewrite letter_aggregation_flat.
  apply (keys_fold_set_nil fst
           (fun item agg => default [] (Dict.get (fst item) agg) ++ [snd item])%list).
Qed.

Lemma letter_aggregation_bucket rs k :
  default [] (Dict.get k (letter_aggregation rs))
  = values_of k (breakdown_items rs).
Proof. rewrite letter_aggregation_flat. apply bucket_get_fold. Qed.

End AggregationFacts.

Section SortFacts.
Implicit Types (p q : string * nat) (l : list (string * nat)).

Lemma insert_desc_perm p l : Permutation (insert_desc p l) (p :: l).
Proof.
  induction l as [|q l IH]; simpl; [done|].
  destruct (snd q <=? snd p)%nat; [done|].
  rewrite IH. apply perm_swap.
Qed.

Lemma sort_desc_perm l : Permutation (sort_desc l) l.
Proof.
  induction l as [|p l IH]; simpl; [done|].
  rewrite insert_desc_perm. by constructor.
Qed.

Lemma insert_desc_sorted p l :
  StronglySorted count_ge l -> StronglySorted count_ge (insert_desc p l).
Proof.
  induction 1 as [|q l Hs IH Hq]; simpl.
  - repeat constructor.
  - destruct (snd q <=? snd p)%nat eqn:E.
    + apply Nat.leb_le in E. constructor; [by constructor|].
      constructor; [done|].
      eapply List.Forall_impl; [|exact Hq]. unfold count_ge. intros; lia.
    + apply Nat.leb_gt in E. constructor; [done|].
      rewrite List.Forall_forall in *. intros r Hr.
      apply (Permutation_in _ (insert_desc_perm p l)) in Hr as [<-|Hr].
      * unfold count_ge. lia.
      * auto.
Qed.

Lemma sort_desc_sorted l : StronglySorted count_ge (sort_desc l).
Proof.
  induction l as [|p l IH]; simpl; [constructor|].
  by apply insert_desc_sorted.
Qed.

Lemma insert_desc_stable c p l :
  List.filter (has_count c) (insert_desc p l)
  = List.filter (has_count c) (p :: l).
Proof.
  induction l as [|q l IH]; simpl; [done|].
  destruct (snd q <=? snd p)%nat eqn:E; [done|].
  apply Nat.leb_gt in E. simpl in *. rewrite IH. unfold has_count.
  destruct (Nat.eqb_spec (snd q) c), (Nat.eqb_spec (snd p) c); try done; lia.
Qed.

(** Entries with equal counts keep their relative order. *)
Lemma sort_desc_stable c l :
  List.filter (has_count c) (sort_desc l) = List.filter (has_count c) l.
Proof.
  induction l as [|p l IH]; simpl; [done|].
  rewrite insert_desc_stable. simpl. by rewrite IH.
Qed.

End SortFacts.

Section GatherFacts.
Context {R : Type}.
Variable K : nat.
Variable ops : nat -> R.
Variable pick : list nat -> nat.
Implicit Types (g : gate R) (l : list (slot R)).

Lemma gather_init_inv n : gate_inv K ops n (gather_init K n).
Proof.
  split; [|split]; simpl.
  - apply length_replicate.
  - unfold in_flight. simpl. rewrite count_replicate_false by done. lia.
  - intros i r H. apply lookup_replicate in H as [? _]. done.
Qed.

Lemma gather_init_measure n : measure (gather_init K n : gate R) = 2 * n.
Proof.
  unfold measure, queued, in_flight. simpl.
  rewrite count_replicate_true, count_replicate_false by done. lia.
Qed.

Lemma step_Enter g i g' :
  step ops g (Enter i) = Some g' ->
  slots g !! i = Some Queued /\ 0 < sem_value g
  /\ g' = {| sem_value := sem_value g - 1;
             slots := <[i := InFlight]> (slots g) |}.
Proof.
  unfold step. destruct (slots g !! i) as [[| |r]|]; try done.
  destruct (0 <? sem_value g)%nat eqn:Hv; [|done].
  apply Nat.ltb_lt in Hv. intros [= <-]. auto.
Qed.

Lemma step_Exit g i g' :
  step ops g (Exit i) = Some g' ->
  slots g !! i = Some InFlight
  /\ g' = {| sem_value := sem_value g + 1;
             slots := <[i := Finished (ops i)]> (slots g) |}.
Proof.
  unfold step. destruct (slots g !! i) as [[| |r]|]; try done.
  intros [= <-]. auto.
Qed.

Lemma step_counts g e g' :
  step ops g e = Some g' ->
  match e with
  | Enter _ =>
      queued g = queued g' + 1 /\ in_flight g' = in_flight g + 1
      /\ sem_value g = sem_value g' + 1
  | Exit _ =>
      queued g' = queued g /\ in_flight g = in_flight g' + 1
      /\ sem_value g' = sem_value g + 1
  end.
Proof.
  destruct e as [i|i]; intros H.
  - apply step_Enter in H as (Hi & Hv & ->). unfold queued, in_flight. simpl.
    pose proof (count_insert is_queued _ _ _ InFlight Hi) as H1.
    pose proof (count_insert is_in_flight _ _ _ InFlight Hi) as H2.
    simpl in *. lia.
  - apply step_Exit in H as (Hi & ->). unfold queued, in_flight. simpl.
    pose proof (count_insert is_queued _ _ _ (Finished (ops i)) Hi) as H1.
    pose proof (count_insert is_in_flight _ _ _ (Finished (ops i)) Hi) as H2.
    simpl in *. lia.
Qed.

Lemma step_measure g e g' :
  step ops g e = Some g' -> measure g' + 1 = measure g.
Proof.
  intros H. apply step_counts in H. unfold measure. destruct e; lia.
Qed.

Lemma step_inv n g e g' :
  gate_inv K ops n g -> step ops g e = Some g' -> gate_inv K ops n g'.
Proof.
  intros (Hlen & Hsem & Hres) H.
  pose proof (step_counts _ _ _ H) as Hc.
  destruct e as [i|i].
  - apply step_Enter in H as (Hi & Hv & ->). simpl in *.
    split; [|split]; simpl.
    + by rewrite length_insert.
    + lia.
    + intros j r Hj. destruct (decide (i = j)) as [->|Hne].
      * rewrite list_lookup_insert_eq in Hj by (by eapply lookup_lt_Some).
        done.
      * rewrite list_lookup_insert_ne in Hj by done. eauto.
  - apply step_Exit in H as (Hi & ->). simpl in *.
    split; [|split]; simpl.
    + by rewrite length_insert.
    + lia.
    + intros j r Hj. destruct (decide (i = j)) as [->|Hne].
      * rewrite list_lookup_insert_eq in Hj by (by eapply lookup_lt_Some).
        by simplify_eq.
      * rewrite list_lookup_insert_ne in Hj by done. eauto.
Qed.

Lemma reachable_inv n g : reachable K ops n g -> gate_inv K ops n g.
Proof.
  induction 1 as [|g e g' _ IH Hstep].
  - apply gather_init_inv.
  - by eapply step_inv.
Qed.

Lemma in_flight_le n g : reachable K ops n g -> in_flight g <= K.
Proof. intros Hr. apply reachable_inv in Hr as (_ & Hsem & _). lia. Qed.

Lemma choose_exit_enabled g :
  0 < in_flight g ->
  exists i, choose_exit pick g = Some (Exit i)
            /\ slots g !! i = Some InFlight.
Proof.
  intros Hpos. unfold choose_exit.
  destruct (slots g !! pick _) as [[| |r]|] eqn:Hp; eauto;
    (destruct (find_index is_in_flight (slots g)) as [j|] eqn:Hf;
     [ apply find_index_Some in Hf as ([| |r'] & Hj & Hx); try done;
       exists j; by rewrite Hj
     | apply find_index_None in Hf; unfold in_flight in Hpos; lia ]).
Qed.

Lemma progress n g :
  1 <= K -> gate_inv K ops n g -> 0 < measure g ->
  exists e g', next_event pick g = Some e /\ step ops g e = Some g'.
Proof.
  intros HK (_ & Hsem & _) Hm. unfold next_event.
  assert (Hexit : 0 < in_flight g ->
            exists e g', choose_exit pick g = Some e
                         /\ step ops g e = Some g').
  { intros Hpos. destruct (choose_exit_enabled g Hpos) as (i & -> & Hi).
    eexists _, _. split; [done|]. simpl. by rewrite Hi. }
  destruct (find_index is_queued (slots g)) as [i|] eqn:Hq.
  - apply find_index_Some in Hq as ([| |r] & Hi & Hx); try done.
    destruct (0 <? sem_value g)%nat eqn:Hv.
    + eexists _, _. split; [done|]. simpl. by rewrite Hi, Hv.
    + apply Nat.ltb_ge in Hv. apply Hexit. lia.
  - apply find_index_None in Hq. apply Hexit.
    unfold measure, queued in Hm. lia.
Qed.

Lemma drive_reachable n fuel g :
  reachable K ops n g -> reachable K ops n (drive ops pick fuel g).
Proof.
  revert g. induction fuel as [|fuel IH]; intros g Hr; simpl; [done|].
  destruct (next_event pick g) as [e|]; [|done].
  destruct (step ops g e) as [g'|] eqn:Hs; [|done].
  apply IH. by eapply reach_step.
Qed.

Lemma drive_finishes n fuel g :
  1 <= K -> gate_inv K ops n g -> measure g <= fuel ->
  measure (drive ops pick fuel g) = 0.
Proof.
  intros HK. revert g. induction fuel as [|fuel IH]; intros g Hinv Hm; simpl.
  - lia.
  - destruct (decide (measure g = 0)) as [Hz|Hnz].
    + destruct (next_event pick g) as [e|]; [|done].
      destruct (step ops g e) as [g'|] eqn:Hs; [|done].
      apply step_measure in Hs. lia.
    + destruct (progress n g HK Hinv) as (e & g' & -> & Hs); [lia|].
      rewrite Hs. apply IH.
      * by eapply step_inv.
      * apply step_measure in Hs. lia.
Qed.

Lemma collect_finished l k :
  count is_queued l = 0 -> count is_in_flight l = 0 ->
  (forall i r, l !! i = Some (Finished r) -> r = ops (k + i)) ->
  collect l = Some (ops <$> seq k (length l)).
Proof.
  revert k. induction l as [|x l IH]; intros k Hq Hf Hres; simpl; [done|].
  rewrite count_cons in Hq, Hf. destruct x as [| |r]; simpl in *; try lia.
  rewrite (IH (S k)); try lia.
  - simpl. f_equal. f_equal. rewrite (Hres 0 r eq_refl). f_equal. lia.
  - intros i r' Hi. rewrite (Hres (S i) r' Hi). f_equal. lia.
Qed.

(** The fan-out always comes back, with one result per operation, by
    position, whatever the completion order. *)
Lemma gather_correct n :
  1 <= K -> gather K ops pick n = Some (ops <$> seq 0 n).
Proof.
  intros HK. unfold gather.
  set (g := drive ops pick (2 * n) (gather_init K n)).
  assert (Hr : reachable K ops n g)
    by (apply drive_reachable; constructor).
  assert (Hm : measure g = 0).
  { apply (drive_finishes n); [done|apply gather_init_inv|].
    by rewrite gather_init_measure. }
  apply reachable_inv in Hr as (Hlen & _ & Hres).
  unfold measure, queued, in_flight in Hm.
  rewrite (collect_finished _ 0), Hlen; [done|lia|lia|done].
Qed.

(** Any interleaving that leaves every slot finished gives that result. *)
Lemma run_collect n evs g rs :
  run ops evs (gather_init K n) = Some g ->
  collect (slots g) = Some rs -> rs = ops <$> seq 0 n.
Proof.
  intros Hrun Hc.
  assert (Hr : reachable K ops n g).
  { assert (H : forall g0, reachable K ops n g0 ->
              run ops evs g0 = Some g -> reachable K ops n g).
    { clear. induction evs as [|e evs IH]; intros g0 Hr H; simpl in H.
      - by simplify_eq.
      - destruct (step ops g0 e) as [g1|] eqn:Hs; [|done].
        eapply IH; [|done]. by eapply reach_step. }
    eapply H; [constructor|done]. }
  apply reachable_inv in Hr as (Hlen & _ & Hres).
  assert (Hall : count is_queued (slots g) = 0
                 /\ count is_in_flight (slots g) = 0).
  { clear -Hc. revert rs Hc.
    induction (slots g) as [|x l IH]; intros rs Hc; [done|].
    destruct x as [| |r]; simpl in Hc; try done.
    destruct (collect l) as [rs'|]; [|done].
    rewrite !count_cons. simpl. eauto. }
  destruct Hall as [Hq Hf].
  rewrite (collect_finished _ 0), Hlen in Hc by done. congruence.
Qed.

End GatherFacts.

(** ** The batches and the command line, in closed form *)

Section PipelineFacts.
Implicit Types (c : client) (w : world) (pick : list nat -> nat).

Lemma permits_positive : 1 <= semaphore_permits.
Proof. unfold semaphore_permits. lia. Qed.

Lemma positional_imap {A B} (f : nat -> A -> B) (d : A) (l : list A) :
  (fun i => f i (nth i l d)) <$> seq 0 (length l) = imap f l.
Proof.
  apply list_eq. intros i.
  rewrite list_lookup_fmap, list_lookup_imap.
  destruct (l !! i) as [x|] eqn:E; simpl.
  - rewrite lookup_seq_lt by (by eapply lookup_lt_Some). simpl.
    by rewrite nth_lookup, E.
  - rewrite lookup_seq_ge; [done|]. by apply lookup_ge_None.
Qed.

Lemma analyze_with_haiku_eq pick c t n :
  analyze_with_haiku pick c t n
  = Some (List.filter not_error_output (generation_outputs c t (Z.to_nat n))).
Proof.
  unfold analyze_with_haiku.
  by rewrite gather_correct by apply permits_positive.
Qed.

Lemma parse_with_sonnet_eq pick c hs t :
  parse_with_sonnet pick c hs t = Some (structuring_outputs c hs t).
Proof.
  unfold parse_with_sonnet.
  rewrite gather_correct by apply permits_positive.
  unfold structuring_outputs.
  by rewrite (positional_imap (fun i h => parse_single_sonnet c i h t)).
Qed.

Lemma print_each_eq lines out :
  print_each lines out = Some ((out ++ lines)%list, Returned tt).
Proof.
  revert out. induction lines as [|l lines IH]; intros out; simpl.
  - unfold io_ret. by rewrite app_nil_r.
  - unfold io_bind, print. rewrite IH. by rewrite <- app_assoc.
Qed.

Lemma run_analysis_eq w t n out :
  run_analysis w t n out
  = match get_api_key w with
    | Raised e => Some (out, Raised e)
    | Returned k =>
        match connect w k with
        | Raised e => Some (out, Raised e)
        | Returned c =>
            let hs := List.filter not_error_output
                        (generation_outputs c t (Z.to_nat n)) in
            let ps := structuring_outputs c hs t in
            Some ((out ++ progress_lines t n hs ps)%list,
                  match close_raises c with
                  | Some e => Raised e
                  | None => Returned {| haiku_results := hs;
                                        parsed_results := ps |}
                  end)
        end
    end.
Proof.
  unfold run_analysis, io_bind, io_lift.
  destruct (get_api_key w) as [e|k]; [done|].
  destruct (connect w k) as [e|c]; [done|].
  unfold try_finally, io_bind, print, await, client_close.
  rewrite analyze_with_haiku_eq, parse_with_sonnet_eq. simpl.
  unfold io_ret, io_raise, progress_lines.
  rewrite <- !app_assoc. simpl.
  by destruct (close_raises c).
Qed.

Lemma main_eq w t n :
  main w t n []
  = match get_api_key w with
    | Raised e => Some (["Error: " ++ e], Returned tt)
    | Returned k =>
        match connect w k with
        | Raised e => Some (["Error: " ++ e], Returned tt)
        | Returned c =>
            let hs := List.filter not_error_output
                        (generation_outputs c t (Z.to_nat n)) in
            let ps := structuring_outputs c hs t in
            match close_raises c with
            | Some e =>
                Some (app (progress_lines t n hs ps) ["Error: " ++ e],
                      Returned tt)
            | None =>
                Some (app (progress_lines t n hs ps) (report_lines t ps),
                      Returned tt)
            end
        end
    end.
Proof.
  unfold main, try_except, io_bind. rewrite run_analysis_eq.
  destruct (get_api_key w) as [e|k]; [done|].
  destruct (connect w k) as [e|c]; [done|].
  simpl. destruct (close_raises c) as [e|]; [done|].
  unfold print. rewrite print_each_eq.
  unfold report_lines. reflexivity.
Qed.

End PipelineFacts.

(** * The claims *)

Section Claims.
Implicit Types (c : client) (w : world) (pick : list nat -> nat).

Lemma chars_length s : length (chars s) = String.length s.
Proof. induction s; simpl; auto. Qed.

Lemma str_map_length f s : String.length (str_map f s) = String.length s.
Proof. induction s; simpl; auto. Qed.

(** On ASCII text case folding keeps the length. *)
Lemma lower_length_ascii s :
  is_ascii s = true -> String.length (lower s) = String.length s.
Proof. intros H. unfold lower. rewrite H. apply str_map_length. Qed.

Lemma letter_properties_keys slang_term :
  Dict.keys (letter_properties slang_term)
  = first_seen (chars (lower slang_term)).
Proof.
  unfold letter_properties.
  rewrite (keys_fold_set_nil id (fun letter _ => letter_schema letter)).
  by rewrite map_id.
Qed.

Lemma structuring_outputs_lookup c hs t i h :
  hs !! i = Some h ->
  structuring_outputs c hs t !! i = Some (parse_single_sonnet c i h t).
Proof.
  intros H. unfold structuring_outputs. by rewrite list_lookup_imap, H.
Qed.

Lemma parse_single_sonnet_raised c i h t e :
  sonnet_create c i (parse_tool t) (sonnet_prompt h t) = Raised e ->
  parse_single_sonnet c i h t = error_record t e.
Proof. intros H. unfold parse_single_sonnet. by rewrite H. Qed.

End Claims.


(** C1, amended: the schema has one field per distinct case-folded character
    of the term, in order of first appearance (for "YOLO": 'y', 'o', 'l'), all
    of them required; per-letter aggregation keeps one bucket per distinct
    letter key, holding every value reported under that key, in iteration
    order. *)
Theorem schema_fields_per_distinct_letter
    (slang_term : string) (rs : list parsed) (letter : string) :
  let props := os_properties (prop_letter_breakdown (parse_tool slang_term)) in
  Dict.keys props = first_seen (chars (lower slang_term))
  /\ os_required (prop_letter_breakdown (parse_tool slang_term)) = Dict.keys props
  /\ NoDup (Dict.keys props)
  /\ (forall l, In l (Dict.keys props) <-> In l (chars (lower slang_term)))
  /\ length (Dict.keys props) <= String.length (lower slang_term)
  /\ Dict.keys (letter_properties "YOLO") = ["y"; "o"; "l"]
  /\ NoDup (Dict.keys (letter_aggregation rs))
  /\ default [] (Dict.get letter (letter_aggregation rs))
     = values_of letter (breakdown_items rs).
Proof.
  simpl. rewrite letter_properties_keys.
  repeat split; try reflexivity.
  - apply first_seen_NoDup.
  - apply first_seen_In.
  - apply first_seen_In.
  - etrans; [apply first_seen_length|]. by rewrite chars_length.
  - rewrite letter_aggregation_keys. apply first_seen_NoDup.
  - apply letter_aggregation_bucket.
Qed.

(** C2: for every cap K >= 1 the fan-out over the structuring calls comes
    back with exactly one record per candidate, the record at position i
    being the one of the call made for candidate i, whatever the order in
    which the calls complete; a call that raises leaves its error record in
    its slot. *)
Theorem fan_out_keeps_every_slot
    (K : nat) (HK : 1 <= K) (pick : list nat -> nat) (c : client)
    (hs : list string) (t : string) :
  gather K (fun i => parse_single_sonnet c i (nth i hs "") t) pick (length hs)
    = Some (structuring_outputs c hs t)
  /\ (forall evs g rs,
        run (fun i => parse_single_sonnet c i (nth i hs "") t) evs
            (gather_init K (length hs)) = Some g ->
        collect (slots g) = Some rs -> rs = structuring_outputs c hs t)
  /\ parse_with_sonnet pick c hs t = Some (structuring_outputs c hs t)
  /\ length (structuring_outputs c hs t) = length hs
  /\ (forall i h, hs !! i = Some h ->
        structuring_outputs c hs t !! i = Some (parse_single_sonnet c i h t))
  /\ (forall i h e, hs !! i = Some h ->
        sonnet_create c i (parse_tool t) (sonnet_prompt h t) = Raised e ->
        structuring_outputs c hs t !! i = Some (error_record t e)).
Proof.
  split; [|split; [|split; [|split; [|split]]]].
  - rewrite gather_correct by done. unfold structuring_outputs.
    by rewrite (positional_imap (fun i h => parse_single_sonnet c i h t)).
  - intros evs g rs Hrun Hc.
    rewrite (run_collect K _ _ _ _ _ Hrun Hc). unfold structuring_outputs.
    by rewrite (positional_imap (fun i h => parse_single_sonnet c i h t)).
  - apply parse_with_sonnet_eq.
  - unfold structuring_outputs. apply length_imap.
  - intros i h Hi. by apply structuring_outputs_lookup.
  - intros i h e Hi He.
    rewrite (structuring_outputs_lookup _ _ _ _ _ Hi).
    by rewrite (parse_single_sonnet_raised _ _ _ _ _ He).
Qed.


(** C3, evaluated on the code: when the response carries no tool-use block
    the record returned has no error field; both validity filters keep it and
    the command line counts its placeholder text as an interpretation. *)
Theorem schema_miss_is_not_flagged :
  let r := parse_single_sonnet demo_client 1 "You Only Live Once" "YOLO" in
  sonnet_create demo_client 1 (parse_tool "YOLO")
      (sonnet_prompt "You Only Live Once" "YOLO")
    = Returned [TextBlock "ok"]
  /\ r = {| term := Some "YOLO";
            primary_meaning := Some "Parse failed - no tool use";
            letter_breakdown := Some [];
            error := None |}
  /\ cli_valid_results [r] = [r]
  /\ valid_result r = true
  /\ summary_lines [r] = ["1. Parse failed - no tool use (1 times)"]
  /\ (meaning_counts <$> display_results
        {| haiku_results := ["You Only Live Once"]; parsed_results := [r] |})
     = Some [("Parse failed - no tool use", 1)].
Proof. repeat split; reflexivity. Qed.


(** C4, amended: in batch mode the program always returns normally (exit
    status 0).  When the credential is missing or empty, or the client cannot
    be set up, it prints the single line "Error: <message>"; when closing the
    client fails it prints that line after the progress lines; otherwise it
    prints the progress lines, the header and at most five summary lines, one
    per entry of the five most common primary meanings. *)
Theorem cli_prints_and_returns_normally
    (w : world) (slang_term : string) (sample_size : Z) :
  exists out,
    script w slang_term sample_size = Some (out, 0%Z)
    /\ match get_api_key w with
       | Raised e => out = ["Error: " ++ e]
       | Returned k =>
           match connect w k with
           | Raised e => out = ["Error: " ++ e]
           | Returned c =>
               let hs := List.filter not_error_output
                           (generation_outputs c slang_term (Z.to_nat sample_size)) in
               let ps := structuring_outputs c hs slang_term in
               match close_raises c with
               | Some e =>
                   out = app (progress_lines slang_term sample_size hs ps)
                             ["Error: " ++ e]
               | None =>
                   out = app (progress_lines slang_term sample_size hs ps)
                             (report_lines slang_term ps)
                   /\ summary_lines ps
                      = imap summary_line
                          (most_common 5 (Counter (cli_meanings ps)))
                   /\ length (summary_lines ps) <= 5
               end
           end
       end.
Proof.
  unfold script. rewrite main_eq.
  destruct (get_api_key w) as [e|k]; [by eexists|].
  destruct (connect w k) as [e|c]; [by eexists|].
  cbv zeta. destruct (close_raises c) as [e|]; [by eexists|].
  eexists. split; [reflexivity|]. split; [reflexivity|]. split; [reflexivity|].
  unfold summary_lines, most_common. rewrite length_imap, length_take. lia.
Qed.

(** C5, evaluated on the code: the command line keeps every record without
    an error key, so a record whose primary meaning is the empty string, which
    the dashboard's filter rejects, is counted under the empty string. *)
Theorem cli_counts_blank_primary :
  parse_single_sonnet blank_client 0 "You Only Live Once" "YOLO" = blank_record
  /\ valid_result blank_record = false
  /\ cli_valid_results [blank_record] = [blank_record]
  /\ Counter (cli_meanings [blank_record]) = [("", 1)]
  /\ script blank_world "YOLO" 1
     = Some (["Analyzing 'YOLO' with 1 samples...";
              "Generated 1 interpretations";
              "Parsed 1 results";
              nl ++ "=== Results for 'YOLO' ===";
              "Valid results: 1";
              nl ++ "Top interpretations:";
              "1.  (1 times)"], 0%Z).
Proof. repeat split; reflexivity. Qed.

(** The dashboard's aggregator does consume exactly the valid records. *)
Lemma display_results_consumes_valid (results : analysis) (agg : aggregate) :
  display_results results = Some agg ->
  agg_valid agg = List.filter valid_result (parsed_results results)
  /\ meaning_counts agg
     = Counter (map (fun r => default "" (primary_meaning r)) (agg_valid agg))
  /\ letter_buckets agg = letter_aggregation (agg_valid agg)
  /\ forall r, In r (agg_valid agg) <->
       In r (parsed_results results)
       /\ error r = None
       /\ exists s, primary_meaning r = Some s /\ s <> "".
Proof.
  unfold display_results.
  destruct (List.filter valid_result (parsed_results results)) as [|r0 l] eqn:E;
    [done|].
  rewrite <- E. clear E.
  intros [= <-]. cbn [agg_valid meaning_counts letter_buckets].
  split; [done|]. split; [done|]. split; [done|].
  intros r. rewrite List.filter_In. unfold valid_result, has_primary, no_error.
  split.
  - intros [Hin H]. apply andb_true_iff in H as [Hp He].
    split; [done|]. split; [by destruct (error r)|].
    destruct (primary_meaning r) as [s|]; [|done].
    exists s. split; [done|]. intros ->. done.
  - intros (Hin & Herr & s & Hs & Hne). split; [done|]. rewrite Herr, Hs.
    apply String.eqb_neq in Hne. by rewrite Hne.
Qed.

Lemma startswith_prefix p s :
  startswith p s = true <-> exists rest, s = p ++ rest.
Proof.
  revert s. induction p as [|a p IH]; intros s; simpl.
  - split; [eauto|done].
  - destruct s as [|b s].
    + split; [done|]. by intros [rest ?].
    + destruct (Ascii.eqb_spec a b) as [->|Hne].
      * rewrite IH. split; intros [rest H]; exists rest; congruence.
      * split; [done|]. intros [rest H]. congruence.
Qed.

Lemma filter_sublist {A} (p : A -> bool) (l : list A) :
  sublist (List.filter p l) l.
Proof.
  induction l as [|x l IH]; simpl; [constructor|].
  destruct (p x); by constructor.
Qed.

(** C6: the outputs handed to the structuring stage are exactly the
    generation outputs that do not start with "Error:", each one kept as
    often as it occurs and in the original order; outputs "A",
    "Error: timeout", "B" leave "A", "B". *)
Theorem generation_errors_are_filtered
    (pick : list nat -> nat) (c : client) (t : string) (n : Z) :
  let raw := generation_outputs c t (Z.to_nat n) in
  exists hs,
    analyze_with_haiku pick c t n = Some hs
    /\ hs = List.filter (fun r => negb (startswith "Error:" r)) raw
    /\ (forall r, In r hs <->
                  In r raw /\ ~ exists rest, r = "Error:" ++ rest)
    /\ sublist hs raw
    /\ (forall w k out,
          get_api_key w = Returned k -> connect w k = Returned c ->
          close_raises c = None ->
          exists out',
            run_analysis w t n out
            = Some (out', Returned {| haiku_results := hs;
                                      parsed_results := structuring_outputs c hs t |}))
    /\ length (structuring_outputs c hs t) = length hs
    /\ generation_outputs abc_client t 3 = ["A"; "Error: timeout"; "B"]
    /\ analyze_with_haiku pick abc_client t 3 = Some ["A"; "B"].
Proof.
  intros raw. exists (List.filter not_error_output raw).
  split; [apply analyze_with_haiku_eq|].
  split.
  { reflexivity. }
  split.
  { intros r. rewrite List.filter_In. unfold not_error_output.
    rewrite <- startswith_prefix, negb_true_iff.
    destruct (startswith "Error:" r); intuition congruence. }
  split; [apply filter_sublist|].
  split.
  { intros w k out Hk Hc Hclose. rewrite run_analysis_eq, Hk, Hc. cbv zeta.
    rewrite Hclose. by eexists. }
  split; [apply length_imap|].
  split; [reflexivity|].
  by rewrite analyze_with_haiku_eq.
Qed.


(** C7: a structuring call whose API call raises returns a record: the
    placeholder with the term, the text "Parse failed", the exception's
    message under the error key and no letter breakdown; in a batch that
    record sits at the call's position. *)
Theorem failed_call_yields_error_record
    (c : client) (i : nat) (h t e : string)
    (Hraise : sonnet_create c i (parse_tool t) (sonnet_prompt h t) = Raised e) :
  let r := parse_single_sonnet c i h t in
  r = error_record t e
  /\ error r = Some e
  /\ letter_breakdown r = None
  /\ no_error r = false
  /\ forall pick hs,
       hs !! i = Some h ->
       exists rs, parse_with_sonnet pick c hs t = Some rs
                  /\ length rs = length hs
                  /\ rs !! i = Some r.
Proof.
  intros r. subst r. rewrite (parse_single_sonnet_raised _ _ _ _ _ Hraise).
  repeat split; try reflexivity.
  intros pick hs Hi. exists (structuring_outputs c hs t).
  split; [apply parse_with_sonnet_eq|].
  split; [apply length_imap|].
  rewrite (structuring_outputs_lookup _ _ _ _ _ Hi).
  by rewrite (parse_single_sonnet_raised _ _ _ _ _ Hraise).
Qed.



Lemma queued_has_first {R} (g : gate R) :
  0 < queued g ->
  exists j, find_index is_queued (slots g) = Some j
            /\ slots g !! j = Some Queued.
Proof.
  intros Hq. destruct (find_index is_queued (slots g)) as [j|] eqn:Hf.
  - apply find_index_Some in Hf as ([| |r] & Hj & Hx); try done. eauto.
  - apply find_index_None in Hf. unfold queued in Hq. lia.
Qed.

(** C9: in a batch gated by the semaphore of 10 permits, every state the
    batch can be in has at most 10 operations in flight; an operation enters
    only from a state with fewer than 10 in flight; a completing operation
    gives its permit back, and the event loop then admits the first queued
    operation, if there is one.  Both batches only go through such states. *)
Theorem at_most_ten_in_flight
    {R : Type} (ops : nat -> R) (n : nat) (g : gate R)
    (Hreach : reachable semaphore_permits ops n g) :
  in_flight g <= 10
  /\ (forall i g', step ops g (Enter i) = Some g' ->
        in_flight g < 10 /\ in_flight g' = in_flight g + 1)
  /\ (forall i g', step ops g (Exit i) = Some g' ->
        in_flight g' + 1 = in_flight g
        /\ sem_value g' = sem_value g + 1
        /\ forall pick, 0 < queued g' ->
             exists j, next_event pick g' = Some (Enter j)
                       /\ is_Some (step ops g' (Enter j)))
  /\ (forall pick fuel,
        reachable semaphore_permits ops n
          (drive ops pick fuel (gather_init semaphore_permits n))).
Proof.
  pose proof (reachable_inv _ _ _ _ Hreach) as (_ & Hsem & _).
  unfold semaphore_permits in Hsem.
  split; [lia|]. split; [|split].
  - intros i g' Hs. pose proof (step_counts _ _ _ _ Hs) as Hc. simpl in Hc.
    apply step_Enter in Hs as (_ & Hv & _). lia.
  - intros i g' Hs. pose proof (step_counts _ _ _ _ Hs) as Hc. simpl in Hc.
    split; [lia|]. split; [lia|].
    intros pick Hq. destruct (queued_has_first g' Hq) as (j & Hf & Hj).
    assert (Hv : (0 <? sem_value g')%nat = true) by (apply Nat.ltb_lt; lia).
    exists j. unfold next_event. rewrite Hf, Hv. split; [done|].
    simpl. rewrite Hj, Hv. eauto.
  - intros pick fuel. apply drive_reachable. constructor.
Qed.


(** C10: [get_api_key] raises the credential error exactly when the variable
    is unset or set to the empty string, and returns the key unchanged in
    every other case. *)
Theorem get_api_key_rejects_unset_and_empty (w : world) :
  (get_api_key w = Raised "ANTHROPIC_API_KEY environment variable not set"
   <-> env_api_key w = None \/ env_api_key w = Some "")
  /\ (forall k, get_api_key w = Returned k
                <-> env_api_key w = Some k /\ k <> "")
  /\ (forall e, get_api_key w = Raised e ->
                e = "ANTHROPIC_API_KEY environment variable not set").
Proof.
  unfold get_api_key. destruct (env_api_key w) as [k0|].
  - destruct (String.eqb_spec k0 "") as [->|Hne].
    + split; [|split].
      * split; auto.
      * intros k. split; [done|]. by intros [[= <-] ?].
      * by intros e [= <-].
    + split; [|split].
      * split; [done|]. intros [?|[= ->]]; done.
      * intros k. split.
        -- by intros [= <-].
        -- by intros [[= <-] _].
      * done.
  - split; [|split].
    + split; auto.
    + intros k. split; [done|]. by intros [? _].
    + by intros e [= <-].
Qed.


(** * Further properties of the pipeline *)

Section SurvivorFacts.
Implicit Types (c : client) (pick : list nat -> nat).

Lemma filter_outputs_omap c t (l : list nat) :
  List.filter not_error_output ((fun i => analyze_single_haiku c i t) <$> l)
  = omap (fun i => surviving_text (haiku_create c i (haiku_prompt t))) l.
Proof.
  induction l as [|i l IH]; [done|].
  cbn [fmap list_fmap omap list_omap List.filter].
  unfold surviving_text at 1, not_error_output at 1.
  assert (Hi : analyze_single_haiku c i t
               = match haiku_create c i (haiku_prompt t) with
                 | Returned text => text
                 | Raised e => "Error: " ++ e
                 end) by reflexivity.
  rewrite Hi. clear Hi.
  destruct (haiku_create c i (haiku_prompt t)) as [e|text].
  - change (startswith "Error:" ("Error: " ++ e)) with true. apply IH.
  - destruct (startswith "Error:" text); cbn [negb]; by rewrite <- IH.
Qed.

Lemma length_omap_le {A B} (f : A -> option B) (l : list A) :
  length (omap f l) <= length l.
Proof.
  induction l as [|x l IH]; [done|].
  cbn [omap list_omap]. destruct (f x); cbn [length].
  - by apply le_n_S.
  - by apply le_S.
Qed.

End SurvivorFacts.

(** X1: the generation batch hands back, in call order, the text of every
    call that returned a text not starting with "Error:"; a call that raised
    contributes nothing, so there are at most [num_runs] results (none when
    [num_runs] is not positive). *)
Theorem generation_survivors_by_outcome
    (pick : list nat -> nat) (c : client) (t : string) (num_runs : Z) :
  analyze_with_haiku pick c t num_runs
  = Some (omap (fun i => surviving_text (haiku_create c i (haiku_prompt t)))
               (seq 0 (Z.to_nat num_runs)))
  /\ (forall hs, analyze_with_haiku pick c t num_runs = Some hs ->
        length hs <= Z.to_nat num_runs
        /\ forall i e h, haiku_create c i (haiku_prompt t) = Raised e ->
             In h hs -> h <> analyze_single_haiku c i t).
Proof.
  assert (Heq : analyze_with_haiku pick c t num_runs
                = Some (omap (fun i => surviving_text
                                         (haiku_create c i (haiku_prompt t)))
                             (seq 0 (Z.to_nat num_runs)))).
  { rewrite analyze_with_haiku_eq. unfold generation_outputs.
    by rewrite filter_outputs_omap. }
  split; [exact Heq|].
  intros hs Hhs. split.
  - rewrite Heq in Hhs. injection Hhs as <-.
    etrans; [apply length_omap_le|]. by rewrite length_seq.
  - intros i e h Hraise Hin ->.
    rewrite analyze_with_haiku_eq in Hhs. injection Hhs as <-.
    apply List.filter_In in Hin as [_ Hin].
    unfold analyze_single_haiku in Hin. rewrite Hraise in Hin.
    discriminate Hin.
Qed.


(** X2: with a sample size that is zero or negative no call is made and the
    command line reports an empty run: the three progress lines with counts
    0, the header, "Valid results: 0" and no summary line, exit status 0. *)
Theorem cli_empty_run
    (w : world) (k t : string) (c : client) (sample_size : Z)
    (Hsize : (sample_size <= 0)%Z)
    (Hkey : get_api_key w = Returned k)
    (Hconnect : connect w k = Returned c)
    (Hclose : close_raises c = None) :
  analyze_with_haiku (haiku_order w) c t sample_size = Some []
  /\ parse_with_sonnet (sonnet_order w) c [] t = Some []
  /\ script w t sample_size
     = Some ([ "Analyzing " ++ squote ++ t ++ squote ++ " with "
                 ++ str_of_Z sample_size ++ " samples...";
               "Generated 0 interpretations";
               "Parsed 0 results";
               nl ++ "=== Results for " ++ squote ++ t ++ squote ++ " ===";
               "Valid results: 0";
               nl ++ "Top interpretations:" ], 0%Z).
Proof.
  assert (Hn : Z.to_nat sample_size = 0) by lia.
  split; [|split].
  - rewrite analyze_with_haiku_eq, Hn. reflexivity.
  - by rewrite parse_with_sonnet_eq.
  - unfold script. rewrite main_eq, Hkey, Hconnect. cbv zeta.
    rewrite Hclose, Hn. reflexivity.
Qed.


(** X3: when the response contains a tool call, [parse_single_sonnet]
    returns the input of the first one exactly as received, whatever text
    blocks come before it and whatever follows; the input is not checked
    against the schema. *)
Theorem first_tool_input_returned_verbatim
    (c : client) (i : nat) (h t : string)
    (before after : list content_block) (input : parsed)
    (Htext : forall b, In b before -> exists s, b = TextBlock s)
    (Hresp : sonnet_create c i (parse_tool t) (sonnet_prompt h t)
             = Returned (app before (ToolUse input :: after))) :
  parse_single_sonnet c i h t = input.
Proof.
  unfold parse_single_sonnet. rewrite Hresp.
  assert (H : first_tool_use (app before (ToolUse input :: after)) = Some input).
  { clear Hresp. induction before as [|b before IH]; simpl; [done|].
    destruct (Htext b (or_introl eq_refl)) as [s ->].
    apply IH. intros b' Hb'. apply Htext. by right. }
  by rewrite H.
Qed.


(** X4: whenever [run_analysis] returns results, it has printed exactly the
    three progress lines, there is one structured record per surviving
    candidate, at most [sample_size] of them, and no candidate starts with
    "Error:". *)
Theorem run_analysis_result_shape
    (w : world) (t : string) (sample_size : Z) (out out' : list string)
    (res : analysis)
    (Hrun : run_analysis w t sample_size out = Some (out', Returned res)) :
  length (parsed_results res) = length (haiku_results res)
  /\ length (haiku_results res) <= Z.to_nat sample_size
  /\ out' = app out (progress_lines t sample_size (haiku_results res)
                                    (parsed_results res))
  /\ forall h, In h (haiku_results res) -> startswith "Error:" h = false.
Proof.
  rewrite run_analysis_eq in Hrun.
  destruct (get_api_key w) as [e|k]; [done|].
  destruct (connect w k) as [e|c]; [done|].
  cbv zeta in Hrun. destruct (close_raises c) as [e|]; [done|].
  injection Hrun as <- <-. cbn [haiku_results parsed_results].
  split; [apply length_imap|]. split; [|split; [done|]].
  - etrans; [apply List.filter_length_le|].
    unfold generation_outputs. by rewrite length_fmap, length_seq.
  - intros h Hin. apply List.filter_In in Hin as [_ Hin].
    unfold not_error_output in Hin. by apply negb_true_iff in Hin.
Qed.


Lemma run_analysis_with_progress_eq (w : world) (t : string) (n : Z) (k : string) :
  run_analysis_with_progress w t n k
  = match connect w k with
    | Raised e =>
        Some ([ SetProgress HaikuProgress 0; SetProgress SonnetProgress 0;
                StError ("Error during analysis: " ++ e) ], None)
    | Returned c =>
        let hs := List.filter not_error_output
                    (generation_outputs c t (Z.to_nat n)) in
        let ps := structuring_outputs c hs t in
        match close_raises c with
        | Some e =>
            Some ([ SetProgress HaikuProgress 0; SetProgress SonnetProgress 0;
                    SetText HaikuStatus
                      "🎭 Claude 3.5 Haiku generating creative interpretations...";
                    SetProgress HaikuProgress 1;
                    SetProgress HaikuProgress 10;
                    SetText SonnetStatus
                      "🧠 Claude 4 Sonnet parsing interpretations into structured data...";
                    SetProgress SonnetProgress 1;
                    SetProgress SonnetProgress 10;
                    StError ("Error during analysis: " ++ e) ], None)
        | None =>
            Some ([ SetProgress HaikuProgress 0; SetProgress SonnetProgress 0;
                    SetText HaikuStatus
                      "🎭 Claude 3.5 Haiku generating creative interpretations...";
                    SetProgress HaikuProgress 1;
                    SetProgress HaikuProgress 10;
                    SetText SonnetStatus
                      "🧠 Claude 4 Sonnet parsing interpretations into structured data...";
                    SetProgress SonnetProgress 1;
                    SetProgress SonnetProgress 10;
                    SetText HaikuStatus "✅ Haiku generation complete!";
                    SetText SonnetStatus "✅ Sonnet parsing complete!" ],
                  Some {| haiku_results := hs; parsed_results := ps |})
        end
    end.
Proof.
  unfold run_analysis_with_progress.
  destruct (connect w k) as [e|c]; [done|].
  rewrite analyze_with_haiku_eq. cbn [mbind option_bind].
  rewrite parse_with_sonnet_eq. cbn [mbind option_bind].
  by destruct (close_raises c).
Qed.

(** X5: given the same key, the dashboard's pipeline always comes back, and
    it returns a result exactly when the command line's [run_analysis] does,
    the same one; it returns nothing exactly when [run_analysis] raises
    (client set-up or close failing). *)
Theorem dashboard_pipeline_agrees_with_cli
    (w : world) (t : string) (n : Z) (k : string)
    (Hkey : get_api_key w = Returned k) :
  (exists evs r, run_analysis_with_progress w t n k = Some (evs, r))
  /\ (forall res,
        (exists evs, run_analysis_with_progress w t n k = Some (evs, Some res))
        <-> (exists out', run_analysis w t n [] = Some (out', Returned res)))
  /\ ((exists evs, run_analysis_with_progress w t n k = Some (evs, None))
      <-> (exists out' e, run_analysis w t n [] = Some (out', Raised e))).
Proof.
  rewrite run_analysis_with_progress_eq, run_analysis_eq, Hkey.
  destruct (connect w k) as [e|c].
  - split; [by eexists _, _|]. split.
    + intros res. split; intros [? H]; discriminate H.
    + split; [by eexists _, _|by eexists].
  - cbv zeta. destruct (close_raises c) as [e|].
    + split; [by eexists _, _|]. split.
      * intros res. split; intros [? H]; discriminate H.
      * split; [by eexists _, _|by eexists].
    + split; [by eexists _, _|]. split.
      * intros res. split; intros [? H]; injection H as <- <-; by eexists.
      * split; [intros [? H]|intros (? & ? & H)]; discriminate H.
Qed.


Section CounterSums.
Implicit Types (xs : list string) (d : pydict nat).

Lemma sum_counts_set k d :
  sum_list_with snd (Dict.set k (S (default 0 (Dict.get k d))) d)
  = S (sum_list_with snd d).
Proof.
  induction d as [|[k' v] d IH]; simpl; [done|].
  destruct (String.eqb k k'); simpl; [done|].
  rewrite IH. lia.
Qed.

Lemma counter_sum xs : sum_list_with snd (Counter xs) = length xs.
Proof.
  unfold Counter.
  assert (H : forall d,
             sum_list_with snd
               (fold_left (fun d x => Dict.set x (S (default 0 (Dict.get x d))) d)
                          xs d)
             = sum_list_with snd d + length xs).
  { induction xs as [|x xs IH]; intros d; simpl; [lia|].
    rewrite IH, sum_counts_set. lia. }
  by rewrite H.
Qed.

Lemma count_pos k xs : In k xs -> 1 <= count (String.eqb k) xs.
Proof.
  induction xs as [|x xs IH]; intros Hin; [done|].
  rewrite count_cons. destruct Hin as [->|Hin].
  - rewrite String.eqb_refl. lia.
  - specialize (IH Hin). lia.
Qed.

Lemma counter_counts_pos xs p : In p (Counter xs) -> 1 <= snd p.
Proof.
  change (Counter xs) with (Dict.items (Counter xs)). rewrite counter_items.
  intros Hin. apply in_map_iff in Hin as (k & <- & Hk). simpl.
  apply count_pos. by apply first_seen_In.
Qed.

Lemma counter_length xs : length (Counter xs) = length (first_seen xs).
Proof.
  change (Counter xs) with (Dict.items (Counter xs)).
  by rewrite counter_items, length_map.
Qed.

Lemma sum_take_drop {A} (f : A -> nat) (n : nat) (l : list A) :
  sum_list_with f (take n l) + sum_list_with f (drop n l) = sum_list_with f l.
Proof. by rewrite <- sum_list_with_app, take_drop. Qed.

Lemma sort_desc_sum d : sum_list_with snd (sort_desc d) = sum_list_with snd d.
Proof. apply sum_list_with_Permutation_proper, sort_desc_perm. Qed.

Lemma sort_desc_length d : length (sort_desc d) = length d.
Proof. apply Permutation_length, sort_desc_perm. Qed.

Lemma most_common_sum_le n d :
  sum_list_with snd (most_common n d) <= sum_list_with snd d.
Proof.
  unfold most_common, Dict.items.
  pose proof (sum_take_drop snd n (sort_desc d)) as H.
  rewrite sort_desc_sum in H. lia.
Qed.

Lemma most_common_all n d :
  length d <= n -> most_common n d = sort_desc d.
Proof.
  intros H. unfold most_common, Dict.items.
  apply take_ge. by rewrite sort_desc_length.
Qed.

Lemma most_common_In n d p : In p (most_common n d) -> In p d.
Proof.
  unfold most_common, Dict.items. intros H.
  apply list_elem_of_In in H.
  pose proof (elem_of_sublist _ _ _ H (sublist_take (sort_desc d) n)) as H'.
  apply list_elem_of_In in H'.
  by apply (Permutation_in _ (sort_desc_perm d)).
Qed.

End CounterSums.

(** X6: the command line's summary has one line per listed meaning, at most
    five; every listed count is at least 1; the listed counts add up to at
    most the number of valid results, and to exactly that number when there
    are at most five distinct meanings. *)
Theorem cli_summary_counts (ps : list parsed) :
  let top := most_common 5 (Counter (cli_meanings ps)) in
  length (summary_lines ps) = length top
  /\ length top = Nat.min 5 (length (first_seen (cli_meanings ps)))
  /\ (forall p, In p top -> 1 <= snd p)
  /\ sum_list_with snd top <= length (cli_valid_results ps)
  /\ (length (first_seen (cli_meanings ps)) <= 5 ->
      sum_list_with snd top = length (cli_valid_results ps)).
Proof.
  intros top. subst top.
  assert (Hlen : length (cli_meanings ps) = length (cli_valid_results ps))
    by (unfold cli_meanings; apply length_map).
  split; [unfold summary_lines; apply length_imap|].
  split.
  { unfold most_common, Dict.items.
    by rewrite length_take, sort_desc_length, counter_length. }
  split.
  { intros p Hp. apply most_common_In in Hp. by eapply counter_counts_pos. }
  split.
  { etrans; [apply most_common_sum_le|]. by rewrite counter_sum, Hlen. }
  intros H5. rewrite most_common_all by (by rewrite counter_length).
  by rewrite sort_desc_sum, counter_sum.
Qed.


(** * Properties of the dashboard *)

Lemma filter_nil_iff {A} (p : A -> bool) (l : list A) :
  List.filter p l = [] <-> forall x, In x l -> p x = false.
Proof.
  induction l as [|y l IH]; simpl; [done|].
  destruct (p y) eqn:E.
  - split; [done|]. intros H. specialize (H y (or_introl eq_refl)). congruence.
  - rewrite IH. split.
    + intros H x [<-|Hx]; auto.
    + intros H x Hx. apply H. by right.
Qed.

(** X7: the dashboard reports "No valid results to display", and draws
    nothing, exactly when no record is valid: in particular for an empty list
    of records and for a list of error records only. *)
Theorem no_data_iff_no_valid_record
    (slang_term : string) (results : analysis) (choice : nat) :
  (display_results results = None
   <-> forall r, In r (parsed_results results) -> valid_result r = false)
  /\ (display_results_view slang_term results choice
        = ([StError "No valid results to display"], None)
      <-> forall r, In r (parsed_results results) -> valid_result r = false)
  /\ (forall r, error r <> None -> valid_result r = false).
Proof.
  assert (H1 : display_results results = None
               <-> forall r, In r (parsed_results results) -> valid_result r = false).
  { rewrite <- filter_nil_iff. unfold display_results.
    by destruct (List.filter valid_result (parsed_results results)). }
  split; [exact H1|]. split.
  - rewrite <- H1. unfold display_results_view.
    destruct (display_results results); [|done].
    split; intros H; discriminate H.
  - intros r Hr. unfold valid_result, no_error.
    destruct (error r); [apply andb_false_r|done].
Qed.


(** X8: every record the dashboard aggregates is also one the command line
    counts: the dashboard's valid records are a sub-sequence of the command
    line's, so the dashboard never reports more valid results. *)
Theorem dashboard_valid_within_cli_valid (ps : list parsed) :
  sublist (List.filter valid_result ps) (cli_valid_results ps)
  /\ length (List.filter valid_result ps) <= length (cli_valid_results ps)
  /\ (forall r, valid_result r = true -> no_error r = true).
Proof.
  assert (Heq : List.filter valid_result ps
                = List.filter valid_result (cli_valid_results ps)).
  { unfold cli_valid_results. rewrite filter_filter_bool.
    apply List.filter_ext. intros r. unfold valid_result.
    destruct (no_error r); [done|]. by rewrite andb_false_r. }
  split; [rewrite Heq; apply filter_sublist|].
  split; [rewrite Heq; apply List.filter_length_le|].
  intros r H. unfold valid_result in H. by apply andb_true_iff in H as [_ ?].
Qed.


Section PieFacts.
Implicit Types (top counts : list (string * nat)).

Lemma with_others_sum keep limit top :
  sum_list_with snd (with_others keep limit top) = sum_list_with snd top.
Proof.
  unfold with_others. destruct (limit <? length top)%nat; [|done].
  pose proof (sum_take_drop snd keep top) as H.
  destruct (0 <? sum_list_with snd (drop keep top))%nat eqn:E.
  - rewrite sum_list_with_app. simpl. lia.
  - apply Nat.ltb_ge in E. lia.
Qed.

Lemma with_others_length keep limit top :
  length (with_others keep limit top) <= Nat.max (keep + 1) limit.
Proof.
  unfold with_others. destruct (limit <? length top)%nat eqn:L.
  - destruct (0 <? sum_list_with snd (drop keep top))%nat.
    + rewrite length_app, length_take. simpl. lia.
    + rewrite length_take. lia.
  - apply Nat.ltb_ge in L. lia.
Qed.

Lemma with_others_small keep limit top :
  length top <= limit -> with_others keep limit top = top.
Proof.
  intros H. unfold with_others.
  assert ((limit <? length top)%nat = false) as -> by (by apply Nat.ltb_ge).
  done.
Qed.

End PieFacts.

(** X9: each pie chart shows the counts of the most common entries without
    losing or inventing any: the overall chart has at most 6 slices summing to
    the counts of the 8 most common meanings, the letter chart at most 5
    slices summing to the counts of the 6 most common; with at most 6 (resp.
    5) entries every entry is its own slice, in descending order. *)
Theorem pie_slices_preserve_counts (counts : pydict nat) :
  length (top_slices counts) <= 6
  /\ sum_list_with snd (top_slices counts)
     = sum_list_with snd (most_common 8 counts)
  /\ (length counts <= 6 -> top_slices counts = sort_desc counts)
  /\ length (letter_slices counts) <= 5
  /\ sum_list_with snd (letter_slices counts)
     = sum_list_with snd (most_common 6 counts)
  /\ (length counts <= 5 -> letter_slices counts = sort_desc counts).
Proof.
  unfold top_slices, letter_slices.
  split; [apply (with_others_length 5 6)|].
  split; [apply with_others_sum|].
  split.
  { intros H. rewrite most_common_all by lia.
    apply with_others_small. by rewrite sort_desc_length. }
  split; [apply (with_others_length 4 5)|].
  split; [apply with_others_sum|].
  intros H. rewrite most_common_all by lia.
  apply with_others_small. by rewrite sort_desc_length.
Qed.


Lemma display_results_counts (results : analysis) (agg : aggregate)
    (Hagg : display_results results = Some agg) :
  sum_list_with snd (top_slices (meaning_counts agg)) <= length (agg_valid agg)
  /\ (length (meaning_counts agg) <= 8 ->
      sum_list_with snd (top_slices (meaning_counts agg)) = length (agg_valid agg))
  /\ 1 <= length (meaning_counts agg)
  /\ length (meaning_counts agg) <= length (agg_valid agg)
  /\ 1 <= length (agg_valid agg).
Proof.
  unfold display_results in Hagg.
  destruct (List.filter valid_result (parsed_results results)) as [|r0 l] eqn:E;
    [done|].
  rewrite <- E in Hagg. injection Hagg as <-.
  cbn [agg_valid meaning_counts]. rewrite E.
  set (ms := map (fun r => default "" (primary_meaning r)) (r0 :: l)).
  assert (Hms : length ms = length (r0 :: l)) by apply length_map.
  unfold top_slices. rewrite with_others_sum.
  split.
  { etrans; [apply most_common_sum_le|]. by rewrite counter_sum, Hms. }
  split.
  { intros H8. rewrite most_common_all by done.
    by rewrite sort_desc_sum, counter_sum. }
  rewrite counter_length. split; [simpl; lia|].
  split; [|simpl; lia].
  etrans; [apply first_seen_length|]. by rewrite Hms.
Qed.

(** X10: on the dashboard the slices of the overall chart never add up to
    more than the number of valid results, and add up to exactly that number
    when there are at most 8 distinct meanings (meanings ranked ninth and
    lower are left out of the chart); the number of distinct meanings lies
    between 1 and the number of valid results. *)
Theorem top_chart_total_bounded (results : analysis) (agg : aggregate)
    (Hagg : display_results results = Some agg) :
  sum_list_with snd (top_slices (meaning_counts agg)) <= length (agg_valid agg)
  /\ (length (meaning_counts agg) <= 8 ->
      sum_list_with snd (top_slices (meaning_counts agg)) = length (agg_valid agg))
  /\ 1 <= length (meaning_counts agg)
  /\ length (meaning_counts agg) <= length (agg_valid agg)
  /\ 1 <= length (agg_valid agg).
Proof. exact (display_results_counts results agg Hagg). Qed.


Lemma sort_desc_head (d : list (string * nat)) :
  d <> [] ->
  exists p rest,
    sort_desc d = p :: rest
    /\ In p d
    /\ (forall q, In q d -> snd q <= snd p)
    /\ exists rest', List.filter (has_count (snd p)) d = p :: rest'.
Proof.
  intros Hne.
  pose proof (sort_desc_perm d) as Hperm.
  pose proof (sort_desc_sorted d) as Hsorted.
  pose proof (sort_desc_stable) as Hstable.
  destruct (sort_desc d) as [|p rest] eqn:E.
  - apply Permutation_nil in Hperm. done.
  - exists p, rest. split; [done|]. split; [|split].
    + apply (Permutation_in _ Hperm). by left.
    + intros q Hq.
      apply (Permutation_in _ (Permutation_sym Hperm)) in Hq as [<-|Hq]; [done|].
      apply StronglySorted_inv in Hsorted as [_ Hall].
      rewrite List.Forall_forall in Hall. by apply Hall.
    + specialize (Hstable (snd p) d). rewrite E in Hstable.
      simpl in Hstable. unfold has_count at 1 in Hstable.
      rewrite Nat.eqb_refl in Hstable. eauto.
Qed.

(** X11: whenever the dashboard has something to show, the "top
    interpretation" is one of the counted meanings, no meaning has a larger
    count, and among the meanings with that count it is the one seen first. *)
Theorem top_interpretation_has_max_count (results : analysis) (agg : aggregate)
    (Hagg : display_results results = Some agg) :
  exists n,
    In (top_interpretation (meaning_counts agg), n) (meaning_counts agg)
    /\ 1 <= n
    /\ (forall m k, In (m, k) (meaning_counts agg) -> k <= n)
    /\ exists rest,
         List.filter (has_count n) (meaning_counts agg)
         = (top_interpretation (meaning_counts agg), n) :: rest.
Proof.
  pose proof (display_results_counts results agg Hagg) as (_ & _ & Hpos & _).
  assert (Hinv : forall p, In p (meaning_counts agg) -> 1 <= snd p).
  { unfold display_results in Hagg.
    destruct (List.filter valid_result (parsed_results results)); [done|].
    injection Hagg as <-. cbn [meaning_counts]. apply counter_counts_pos. }
  destruct (meaning_counts agg) as [|p0 d] eqn:E; [simpl in Hpos; lia|].
  destruct (sort_desc_head (p0 :: d)) as ([m n] & rest & Hs & Hin & Hmax & Hfirst);
    [done|].
  assert (Htop : top_interpretation (p0 :: d) = m).
  { unfold top_interpretation, most_common, Dict.items. by rewrite Hs. }
  rewrite Htop. exists n. split; [done|]. split; [apply (Hinv _ Hin)|].
  split; [|done].
  intros m' k Hk. apply (Hmax _ Hk).
Qed.


Lemma str_length_app (a b : string) :
  String.length (a ++ b) = String.length a + String.length b.
Proof. induction a; simpl; auto. Qed.

Lemma substring_prefix_length (n : nat) (s : string) :
  String.length (String.substring 0 n s) = Nat.min n (String.length s).
Proof.
  revert s. induction n as [|n IH]; intros [|c s]; simpl; auto.
Qed.

(** X12: the caption under "Top Interpretation" is the meaning itself when
    it has at most 30 characters, and otherwise its first 30 characters
    followed by "...", 33 characters in all. *)
Theorem caption_bounded (most : string) :
  String.length (caption most) <= 33
  /\ (String.length most <= 30 -> caption most = most)
  /\ (30 < String.length most ->
      caption most = String.substring 0 30 most ++ "..."
      /\ String.length (caption most) = 33).
Proof.
  unfold caption. destruct (30 <? String.length most)%nat eqn:E.
  - apply Nat.ltb_lt in E.
    assert (Hlen : String.length (String.substring 0 30 most ++ "...") = 33).
    { rewrite str_length_app, substring_prefix_length.
      change (String.length "...") with 3. lia. }
    split; [lia|]. split; [lia|]. done.
  - apply Nat.ltb_ge in E. split; [lia|]. split; [done|lia].
Qed.


Lemma index_of_first (x : string) (letters : list string) :
  In x letters ->
  letters !! index_of x letters = Some x
  /\ forall j, j < index_of x letters -> letters !! j <> Some x.
Proof.
  induction letters as [|y letters IH]; intros Hin; [done|].
  simpl. destruct (String.eqb_spec x y) as [->|Hne].
  - split; [done|]. intros j Hj. lia.
  - destruct Hin as [->|Hin]; [done|]. destruct (IH Hin) as [Hat Hbefore].
    split; [done|].
    intros [|j] Hj; simpl; [congruence|]. apply Hbefore. lia.
Qed.

(** X13: in the letter selector the position printed for an option is that of
    the first occurrence of its letter in the term: it never exceeds the
    option's own position, and options holding the same letter carry the
    same label. *)
Theorem letter_label_shows_first_occurrence
    (slang_term : string) (i : nat) (x : string)
    (Hi : chars (lower slang_term) !! i = Some x) :
  let letters := chars (lower slang_term) in
  let labels := map (letter_label letters) letters in
  letters !! index_of x letters = Some x
  /\ index_of x letters <= i
  /\ labels !! i
     = Some (upper x ++ " (position " ++ str_of_nat (index_of x letters + 1) ++ ")")
  /\ forall j, letters !! j = Some x -> labels !! j = labels !! i.
Proof.
  intros letters labels.
  assert (Hin : In x letters).
  { apply list_elem_of_In, list_elem_of_lookup. eauto. }
  destruct (index_of_first x letters Hin) as [Hat Hbefore].
  assert (Hlab : forall j, letters !! j = Some x ->
                   labels !! j = Some (letter_label letters x)).
  { intros j Hj. subst labels.
    change (map (letter_label letters) letters)
      with (letter_label letters <$> letters).
    by rewrite list_lookup_fmap, Hj. }
  split; [done|]. split.
  - destruct (Nat.le_gt_cases (index_of x letters) i) as [|Hlt]; [done|].
    by destruct (Hbefore i Hlt).
  - split; [by apply Hlab|].
    intros j Hj. by rewrite (Hlab j Hj), (Hlab i Hi).
Qed.


Section BucketFacts.

Lemma get_Some_In {V} (k : string) (d : pydict V) (v : V) :
  Dict.get k d = Some v -> In k (Dict.keys d).
Proof.
  induction d as [|[k' v'] d IH]; simpl; [done|].
  destruct (String.eqb_spec k k') as [->|Hne]; auto.
Qed.

Lemma In_get_Some {V} (k : string) (d : pydict V) :
  In k (Dict.keys d) -> exists v, Dict.get k d = Some v.
Proof.
  induction d as [|[k' v'] d IH]; simpl; [done|].
  destruct (String.eqb_spec k k') as [->|Hne]; [eauto|].
  intros [?|?]; [congruence|auto].
Qed.

Lemma values_of_nonempty (k : string) (items : list (string * string)) :
  In k (map fst items) -> values_of k items <> [].
Proof.
  unfold values_of. induction items as [|[l m] items IH]; simpl; [done|].
  destruct (String.eqb_spec k l) as [->|Hne]; [done|].
  intros [?|?]; [congruence|auto].
Qed.

Lemma bucket_nonempty (rs : list parsed) (k : string) (vs : list string) :
  Dict.get k (letter_aggregation rs) = Some vs ->
  vs = values_of k (breakdown_items rs) /\ vs <> [].
Proof.
  intros Hget.
  assert (Hvs : vs = values_of k (breakdown_items rs)).
  { rewrite <- letter_aggregation_bucket. by rewrite Hget. }
  split; [done|]. rewrite Hvs. apply values_of_nonempty.
  apply get_Some_In in Hget. rewrite letter_aggregation_keys in Hget.
  exact (proj1 (first_seen_In _ _) Hget).
Qed.

Lemma counter_nonempty (xs : list string) : xs <> [] -> Counter xs <> [].
Proof.
  intros Hne Hnil.
  assert (H : length (Counter xs) = 0) by (by rewrite Hnil).
  rewrite counter_length in H. destruct xs; [done|]. simpl in H. lia.
Qed.

End BucketFacts.



(** X15: when every valid record carries a letter breakdown with all the
    keys the schema requires, every option of the letter selector has data:
    the letter chart is drawn and no "No data available" message appears. *)
Theorem conformant_records_give_letter_data
    (slang_term : string) (results : analysis) (agg : aggregate) (choice : nat)
    (Hagg : display_results results = Some agg)
    (Hconf : forall r, In r (agg_valid agg) ->
               exists bd, letter_breakdown r = Some bd
                 /\ forall k,
                      In k (os_required (prop_letter_breakdown (parse_tool slang_term))) ->
                      Dict.mem k bd = true)
    (Hchoice : choice < length (chars (lower slang_term))) :
  exists v slices,
    display_results_view slang_term results choice
    = ([KeyedWidget (selector_key slang_term) (view_selected v)], Some v)
    /\ view_letter v = LetterPie slices
    /\ In (view_selected v) (chars (lower slang_term)).
Proof.
  pose proof (display_results_consumes_valid _ _ Hagg) as (_ & _ & Hb & _).
  pose proof (display_results_counts _ _ Hagg) as (_ & _ & _ & _ & Hpos).
  set (letters := chars (lower slang_term)) in *.
  set (sel := nth choice letters "").
  assert (Hsel : In sel letters) by (by apply nth_In).
  assert (Hget : exists vs, Dict.get sel (letter_buckets agg) = Some vs).
  { rewrite Hb. apply In_get_Some. rewrite letter_aggregation_keys.
    apply first_seen_In.
    destruct (agg_valid agg) as [|r0 l] eqn:E; [simpl in Hpos; lia|].
    destruct (Hconf r0 (or_introl eq_refl)) as (bd & Hbd & Hkeys).
    assert (Hmem : Dict.mem sel bd = true).
    { apply Hkeys. cbn [parse_tool prop_letter_breakdown os_required].
      rewrite letter_properties_keys. by apply first_seen_In. }
    rewrite mem_keys in Hmem. apply str_in_true in Hmem.
    unfold breakdown_items. simpl. rewrite Hbd. simpl.
    rewrite map_app. apply in_or_app. by left. }
  destruct Hget as [vs Hget].
  assert (Hne : Counter vs <> []).
  { apply counter_nonempty. rewrite Hb in Hget.
    by apply bucket_nonempty in Hget as [_ ?]. }
  unfold display_results_view. rewrite Hagg. fold letters. fold sel.
  rewrite Hget. destruct (Counter vs) as [|p d] eqn:Ec; [done|].
  match goal with
  | |- exists v slices, (_, Some ?x) = _ /\ _ => exists x
  end.
  eexists. split; [reflexivity|]. split; [reflexivity|]. exact Hsel.
Qed.


(** * The dashboard's session cache *)

Section KeyFacts.

Lemma uint_chars_no_underscore (d : Decimal.uint) :
  ~ In "_" (chars (NilEmpty.string_of_uint d)).
Proof.
  induction d; simpl; [tauto|..]; intros [H|H]; try discriminate H; auto.
Qed.

Lemma str_of_Z_no_underscore (z : Z) : ~ In "_" (chars (str_of_Z z)).
Proof.
  unfold str_of_Z, NilZero.string_of_int, NilZero.string_of_uint.
  destruct (Z.to_int z) as [d|d]; destruct d;
    try apply uint_chars_no_underscore;
    simpl; intros H; repeat (destruct H as [H|H]; [discriminate H|]);
    try (by apply (uint_chars_no_underscore d)); done.
Qed.

Lemma str_of_Z_inj (z1 z2 : Z) : str_of_Z z1 = str_of_Z z2 -> z1 = z2.
Proof.
  unfold str_of_Z. intros H. apply DecimalZ.to_int_inj.
  assert (Hnn : forall z, Z.to_int z <> Decimal.Pos Decimal.Nil
                          /\ Z.to_int z <> Decimal.Neg Decimal.Nil).
  { intros [|p|p]; simpl; split; try discriminate;
      intros [= Hp]; by apply (DecimalPos.Unsigned.to_uint_nonnil p). }
  pose proof (NilZero.isi (Z.to_int z1) (proj1 (Hnn z1)) (proj2 (Hnn z1))) as H1.
  pose proof (NilZero.isi (Z.to_int z2) (proj1 (Hnn z2)) (proj2 (Hnn z2))) as H2.
  rewrite H in H1. congruence.
Qed.

Lemma chars_app (a b : string) : chars (a ++ b) = app (chars a) (chars b).
Proof. induction a; simpl; [done|]. by f_equal. Qed.

Lemma split_at_last_underscore (a b da db : string) :
  ~ In "_" (chars da) -> ~ In "_" (chars db) ->
  a ++ "_" ++ da = b ++ "_" ++ db -> a = b /\ da = db.
Proof.
  intros Hda Hdb. revert b.
  induction a as [|x a IH]; intros [|y b] H; simpl in H.
  - injection H as <-. done.
  - injection H as <- ->. exfalso. apply Hda.
    rewrite chars_app. apply in_or_app. right. by left.
  - injection H as -> <-. exfalso. apply Hdb.
    rewrite chars_app. apply in_or_app. right. by left.
  - injection H as <- H. destruct (IH b H) as [-> ->]. done.
Qed.

Lemma append_inj_l (p a b : string) : p ++ a = p ++ b -> a = b.
Proof. induction p; simpl; intros H; [done|]. injection H as H. auto. Qed.

Lemma results_key_prefix (t : string) (n : Z) :
  startswith "results_" (results_key t n) = true.
Proof. reflexivity. Qed.

Lemma clear_results_get (session : pydict session_value) (k : string) :
  Dict.get k (clear_results session)
  = if startswith "results_" k then None else Dict.get k session.
Proof.
  unfold clear_results.
  generalize (startswith "results_"). intros pre.
  induction session as [|[k' v] session IH]; simpl.
  - by destruct (pre k).
  - destruct (pre k') eqn:Hk'; simpl.
    + rewrite IH. destruct (pre k) eqn:Hk; [done|].
      destruct (String.eqb_spec k k') as [->|_]; [congruence|done].
    + rewrite IH. destruct (pre k) eqn:Hk; [|done].
      destruct (String.eqb_spec k k') as [->|_]; [congruence|done].
Qed.

End KeyFacts.

(** X16: the cache key determines the term and the sample size: two
    different (term, sample size) pairs never share a key, and every key the
    dashboard stores under starts with "results_". *)
Theorem results_key_injective (t1 t2 : string) (n1 n2 : Z)
    (Hkey : results_key t1 n1 = results_key t2 n2) :
  t1 = t2 /\ n1 = n2
  /\ startswith "results_" (results_key t1 n1) = true.
Proof.
  unfold results_key in Hkey. apply append_inj_l in Hkey.
  apply split_at_last_underscore in Hkey as [-> Hn];
    try apply str_of_Z_no_underscore.
  apply str_of_Z_inj in Hn as ->. done.
Qed.


Section SessionFacts.

Lemma filter_key_get {V} (p : string -> bool) (session : pydict V) (k : string) :
  Dict.get k (List.filter (fun kv => p (fst kv)) session)
  = if p k then Dict.get k session else None.
Proof.
  induction session as [|[k' v] session IH]; simpl.
  - by destruct (p k).
  - destruct (p k') eqn:Hk'; simpl.
    + destruct (String.eqb_spec k k') as [->|Hne]; [by rewrite Hk'|apply IH].
    + rewrite IH. destruct (String.eqb_spec k k') as [->|Hne]; [by rewrite Hk'|done].
Qed.

Lemma end_of_run_get (pg : page) (k : string) :
  Dict.get k (page_session (end_of_run pg))
  = if stale (page_session pg) (page_events pg) k then None
    else Dict.get k (page_session pg).
Proof.
  unfold end_of_run. cbn [page_session].
  rewrite (filter_key_get
             (fun k => negb (stale (page_session pg) (page_events pg) k))).
  by destruct (stale (page_session pg) (page_events pg) k).
Qed.

Lemma widget_writes_app (a b : list ui_event) :
  widget_writes (app a b) = app (widget_writes a) (widget_writes b).
Proof. apply omap_app. Qed.

Lemma display_view_writes (t : string) (res : analysis) (ch : nat) :
  widget_writes (fst (display_results_view t res ch))
  = match display_results res with
    | Some _ => [(selector_key t, nth ch (chars (lower t)) "")]
    | None => []
    end.
Proof.
  unfold display_results_view. destruct (display_results res) as [agg|]; [|done].
  cbn [fst]. destruct (Dict.get _ (letter_buckets agg)) as [vs|]; [|done].
  by destruct (Counter vs).
Qed.

Lemma progress_no_widgets (w : world) (t : string) (n : Z) (k : string)
    (evs : list ui_event) (r : option analysis) :
  run_analysis_with_progress w t n k = Some (evs, r) -> widget_writes evs = [].
Proof.
  rewrite run_analysis_with_progress_eq.
  destruct (connect w k) as [e|c]; [by intros [= <- <-]|].
  cbv zeta. destruct (close_raises c); by intros [= <- <-].
Qed.

(** A run that renders no keyed widget keeps what the script stored and
    nothing else. *)
Lemma quiet_run_get (session : pydict session_value) (evs : list ui_event)
    (v : option dashboard_view) (k : string) :
  widget_writes evs = [] ->
  Dict.get k (page_session
                (end_of_run {| page_session := session; page_events := evs;
                               page_view := v |}))
  = script_entry session k.
Proof.
  intros Hq. rewrite end_of_run_get. cbn [page_session page_events].
  unfold stale, script_entry. rewrite Hq.
  by destruct (Dict.get k session) as [[r|x]|].
Qed.

(** A run that shows cached results keeps what the script stored, plus the
    letter selector's value when the selector is rendered. *)
Lemma shown_run (session : pydict session_value) (evs : list ui_event)
    (t key : string) (ch : nat) (res : analysis) :
  Dict.get key session = Some (SResults res) ->
  widget_writes evs = [] ->
  let pg := end_of_run (show_cached session evs t key ch) in
  page_events pg = app evs (fst (display_results_view t res ch))
  /\ page_view pg = snd (display_results_view t res ch)
  /\ forall k,
       Dict.get k (page_session pg)
       = match display_results res with
         | Some _ =>
             if String.eqb k (selector_key t)
             then Some (SWidget (nth ch (chars (lower t)) ""))
             else script_entry session k
         | None => script_entry session k
         end.
Proof.
  intros Hkey Hq pg. subst pg. unfold show_cached. rewrite Hkey.
  pose proof (display_view_writes t res ch) as Hw.
  destruct (display_results_view t res ch) as [devs v] eqn:Hd.
  cbn [fst snd] in *. split; [done|]. split; [done|].
  intros k. rewrite end_of_run_get. cbn [page_session page_events].
  unfold stale, apply_widgets. rewrite widget_writes_app, Hq, Hw. cbn [app].
  destruct (display_results res) as [agg|]; cbn [fold_left map fst snd str_in existsb].
  - destruct (String.eqb_spec k (selector_key t)) as [->|Hne].
    + by rewrite get_set_eq.
    + rewrite get_set_ne by congruence. unfold script_entry.
      by destruct (Dict.get k session) as [[r|x]|].
  - unfold script_entry. by destruct (Dict.get k session) as [[r|x]|].
Qed.

Lemma results_key_not_selector (t t' : string) (n : Z) :
  results_key t n <> selector_key t'.
Proof. discriminate. Qed.

Lemma selector_key_prefix (t : string) :
  startswith "results_" (selector_key t) = false.
Proof. reflexivity. Qed.

End SessionFacts.

(** X17: after an Analyze click whose analysis succeeds, the session holds
    the new results under the current key and no other cached results; the
    letter selector's value is there exactly when the results are displayed;
    every other entry is kept only if the script stored it under a key not
    starting with "results_"; and the page shows the new results. *)
Theorem analyze_click_replaces_cache
    (w : world) (session : pydict session_value) (text_input k : string)
    (c : client) (sample_size : Z) (choice : nat)
    (Hterm : strip (upper text_input) <> "")
    (Hkey : get_api_key w = Returned k)
    (Hconnect : connect w k = Returned c)
    (Hclose : close_raises c = None) :
  let slang_term := strip (upper text_input) in
  let key := results_key slang_term sample_size in
  let hs := List.filter not_error_output
              (generation_outputs c slang_term (Z.to_nat sample_size)) in
  let res := {| haiku_results := hs;
                parsed_results := structuring_outputs c hs slang_term |} in
  exists pg,
    dashboard_main w session text_input sample_size true choice = Some pg
    /\ Dict.get key (page_session pg) = Some (SResults res)
    /\ (forall k', k' <> key -> k' <> selector_key slang_term ->
          Dict.get k' (page_session pg)
          = if startswith "results_" k' then None else script_entry session k')
    /\ Dict.get (selector_key slang_term) (page_session pg)
       = match display_results res with
         | Some _ => Some (SWidget (nth choice (chars (lower slang_term)) ""))
         | None => script_entry session (selector_key slang_term)
         end
    /\ page_view pg = snd (display_results_view slang_term res choice).
Proof.
  intros slang_term key hs res.
  unfold dashboard_main, dashboard_script. fold slang_term. fold key.
  apply String.eqb_neq in Hterm. fold slang_term in Hterm. rewrite Hterm.
  cbn [orb]. rewrite Hkey.
  destruct (run_analysis_with_progress w slang_term sample_size k)
    as [[evs r]|] eqn:Hrun.
  2: { rewrite run_analysis_with_progress_eq, Hconnect in Hrun.
       cbv zeta in Hrun. by rewrite Hclose in Hrun. }
  pose proof (progress_no_widgets _ _ _ _ _ _ Hrun) as Hq.
  rewrite run_analysis_with_progress_eq, Hconnect in Hrun.
  cbv zeta in Hrun. rewrite Hclose in Hrun. injection Hrun as _ <-.
  fold hs. fold res. cbn [fmap option_fmap option_map].
  set (s1 := Dict.set key (SResults res) (clear_results session)).
  assert (Hs1 : Dict.get key s1 = Some (SResults res)) by apply get_set_eq.
  destruct (shown_run s1 evs slang_term key choice res Hs1 Hq)
    as (_ & Hview & Hget).
  assert (Hentry : forall k', k' <> key ->
            script_entry s1 k'
            = if startswith "results_" k' then None else script_entry session k').
  { intros k' Hne. unfold script_entry, s1.
    rewrite get_set_ne by congruence. rewrite clear_results_get.
    by destruct (startswith "results_" k'). }
  eexists. split; [reflexivity|]. split; [|split; [|split]].
  - rewrite Hget.
    assert (Hk : String.eqb key (selector_key slang_term) = false)
      by (apply String.eqb_neq, results_key_not_selector).
    rewrite Hk. unfold script_entry. rewrite Hs1.
    by destruct (display_results res).
  - intros k' Hne Hsel. rewrite Hget.
    apply String.eqb_neq in Hsel. rewrite Hsel, (Hentry k' Hne).
    by destruct (display_results res).
  - rewrite Hget, String.eqb_refl.
    destruct (display_results res); [done|].
    rewrite Hentry by (intros H; symmetry in H; by apply results_key_not_selector in H).
    by rewrite selector_key_prefix.
  - exact Hview.
Qed.


(** X18: a run of the page without an Analyze click does not depend on the
    credential or on the API and leaves every cached result in place; with
    nothing cached under the current key it draws nothing at all; with
    cached results it shows exactly those, and the only widget value kept in
    the session is that of the letter selector it rendered. *)
Theorem rerun_without_click_uses_cache_only
    (w w' : world) (session : pydict session_value) (text_input : string)
    (sample_size : Z) (choice : nat) :
  let slang_term := strip (upper text_input) in
  let key := results_key slang_term sample_size in
  dashboard_main w session text_input sample_size false choice
    = dashboard_main w' session text_input sample_size false choice
  /\ exists pg,
       dashboard_main w session text_input sample_size false choice = Some pg
       /\ (forall k, startswith "results_" k = true ->
             Dict.get k (page_session pg) = script_entry session k)
       /\ (forall k x, Dict.get k (page_session pg) = Some (SWidget x) ->
             k = selector_key slang_term)
       /\ (slang_term <> "" -> Dict.get key session = None ->
           page_events pg = [] /\ page_view pg = None)
       /\ (forall res, slang_term <> "" ->
             Dict.get key session = Some (SResults res) ->
             (page_events pg, page_view pg)
             = display_results_view slang_term res choice
             /\ Dict.get (selector_key slang_term) (page_session pg)
                = match display_results res with
                  | Some _ =>
                      Some (SWidget (nth choice (chars (lower slang_term)) ""))
                  | None => script_entry session (selector_key slang_term)
                  end).
Proof.
  intros slang_term key. split; [reflexivity|].
  assert (Hquiet : forall evs v,
            widget_writes evs = [] ->
            let pg := end_of_run {| page_session := session;
                                    page_events := evs; page_view := v |} in
            (forall k, startswith "results_" k = true ->
               Dict.get k (page_session pg) = script_entry session k)
            /\ (forall k x, Dict.get k (page_session pg) = Some (SWidget x) ->
                  k = selector_key slang_term)).
  { intros evs v Hq pg. subst pg. split.
    - intros k _. by apply quiet_run_get.
    - intros k x. rewrite quiet_run_get by done. unfold script_entry.
      by destruct (Dict.get k session) as [[r|y]|]. }
  unfold dashboard_main, dashboard_script. fold slang_term. fold key.
  destruct (String.eqb_spec slang_term "") as [Hb|Hnb].
  - eexists. split; [reflexivity|].
    destruct (Hquiet [StInfo "👆 Enter a slang term in the sidebar to get started!"]
                None eq_refl) as [H1 H2].
    split; [exact H1|]. split; [exact H2|]. split; [done|].
    intros res Hne. done.
  - cbn [orb].
    assert (Hsame : (if negb (Dict.mem key session)
                     then Some (show_cached session [] slang_term key choice)
                     else Some (show_cached session [] slang_term key choice))
                    = Some (show_cached session [] slang_term key choice))
      by (by destruct (negb (Dict.mem key session))).
    rewrite Hsame. cbn [fmap option_fmap option_map].
    eexists. split; [reflexivity|].
    destruct (Dict.get key session) as [[res|x]|] eqn:Hget.
    + destruct (shown_run session [] slang_term key choice res Hget eq_refl)
        as (Hev & Hview & Hs).
      split; [|split; [|split]].
      * intros k Hk. rewrite Hs.
        assert (Hne : String.eqb k (selector_key slang_term) = false).
        { apply String.eqb_neq. intros ->.
          by rewrite selector_key_prefix in Hk. }
        rewrite Hne. by destruct (display_results res).
      * intros k x. rewrite Hs.
        destruct (display_results res).
        -- destruct (String.eqb_spec k (selector_key slang_term)); [done|].
           unfold script_entry. by destruct (Dict.get k session) as [[r|y]|].
        -- unfold script_entry. by destruct (Dict.get k session) as [[r|y]|].
      * intros _ Hnone. discriminate Hnone.
      * intros res' _ [= <-]. split.
        -- rewrite Hev, Hview. cbn [app].
           by destruct (display_results_view slang_term res choice).
        -- rewrite Hs, String.eqb_refl. done.
    + assert (Hsh : show_cached session [] slang_term key choice
                    = {| page_session := session;
                         page_events := [Uncaught "TypeError"];
                         page_view := None |})
        by (unfold show_cached; by rewrite Hget).
      rewrite Hsh. destruct (Hquiet [Uncaught "TypeError"] None eq_refl) as [H1 H2].
      split; [exact H1|]. split; [exact H2|]. split; [done|].
      intros res Hne. done.
    + assert (Hsh : show_cached session [] slang_term key choice
                    = {| page_session := session; page_events := [];
                         page_view := None |})
        by (unfold show_cached; by rewrite Hget).
      rewrite Hsh. destruct (Hquiet [] None eq_refl) as [H1 H2].
      split; [exact H1|]. split; [exact H2|]. split; [done|].
      intros res Hne. done.
Qed.


(** X19: an Analyze click that produces no results (the credential is
    missing, or the analysis fails) still wipes every cached result: the
    session keeps only what the script stored under keys not starting with
    "results_", no widget value is kept, nothing is displayed, and the page
    ends with the corresponding message. *)
Theorem failed_click_clears_cache
    (w : world) (session : pydict session_value) (text_input : string)
    (sample_size : Z) (choice : nat)
    (Hterm : strip (upper text_input) <> "")
    (Hfail : (exists e, get_api_key w = Raised e)
             \/ (exists k evs,
                   get_api_key w = Returned k
                   /\ run_analysis_with_progress w (strip (upper text_input))
                        sample_size k = Some (evs, None))) :
  exists pg,
    dashboard_main w session text_input sample_size true choice = Some pg
    /\ page_view pg = None
    /\ (forall k', Dict.get k' (page_session pg)
                   = if startswith "results_" k' then None
                     else script_entry session k')
    /\ (forall e, get_api_key w = Raised e ->
          page_events pg
          = [ StError ("Error getting API key: " ++ e);
              StInfo "Please set your ANTHROPIC_API_KEY environment variable" ])
    /\ (forall k evs,
          get_api_key w = Returned k ->
          run_analysis_with_progress w (strip (upper text_input)) sample_size k
            = Some (evs, None) ->
          page_events pg
          = app evs [StError "Analysis failed. Please try again."]).
Proof.
  assert (Hcleared : forall evs v k',
            widget_writes evs = [] ->
            Dict.get k' (page_session
                           (end_of_run {| page_session := clear_results session;
                                          page_events := evs; page_view := v |}))
            = if startswith "results_" k' then None else script_entry session k').
  { intros evs v k' Hq. rewrite quiet_run_get by done.
    unfold script_entry. rewrite clear_results_get.
    by destruct (startswith "results_" k'). }
  unfold dashboard_main, dashboard_script.
  apply String.eqb_neq in Hterm. rewrite Hterm. cbn [orb].
  destruct Hfail as [[e He]|(k & evs & Hk & Hrun)].
  - rewrite He. cbn [fmap option_fmap option_map].
    eexists. split; [reflexivity|]. split; [done|].
    split; [intros k'; by apply Hcleared|].
    split; [by intros e' [= <-]|]. intros k evs Hk. discriminate Hk.
  - rewrite Hk, Hrun. cbn [fmap option_fmap option_map].
    eexists. split; [reflexivity|]. split; [done|]. split.
    + intros k'. apply Hcleared.
      rewrite widget_writes_app, (progress_no_widgets _ _ _ _ _ _ Hrun). done.
    + split; [intros e' He'; discriminate He'|].
      intros k' evs' [= <-] Hrun'. rewrite Hrun in Hrun'. by injection Hrun' as <-.
Qed.


Section StripFacts.

Lemma upper_char_space (c : ascii) : is_space (upper_char c) = is_space c.
Proof. destruct c as [[] [] [] [] [] [] [] []]; reflexivity. Qed.

Lemma upper_char_ascii (c : ascii) :
  (nat_of_ascii (upper_char c) <? 128)%nat = (nat_of_ascii c <? 128)%nat.
Proof. destruct c as [[] [] [] [] [] [] [] []]; reflexivity. Qed.

Lemma lower_char_ascii (c : ascii) :
  (nat_of_ascii (lower_char c) <? 128)%nat = (nat_of_ascii c <? 128)%nat.
Proof. destruct c as [[] [] [] [] [] [] [] []]; reflexivity. Qed.

Lemma space_is_ascii (c : ascii) :
  is_space c = true -> (nat_of_ascii c <? 128)%nat = true.
Proof. destruct c as [[] [] [] [] [] [] [] []]; (reflexivity || discriminate). Qed.

Lemma is_ascii_upper_chars (s : string) :
  is_ascii (str_map upper_char s) = is_ascii s.
Proof. induction s as [|c s IH]; simpl; [done|]. by rewrite upper_char_ascii, IH. Qed.

Lemma is_ascii_lower_chars (s : string) :
  is_ascii (str_map lower_char s) = is_ascii s.
Proof. induction s as [|c s IH]; simpl; [done|]. by rewrite lower_char_ascii, IH. Qed.

Lemma all_space_ascii (s : string) : all_space s = true -> is_ascii s = true.
Proof.
  induction s as [|c s IH]; simpl; [done|]. intros H.
  apply andb_true_iff in H as [Hc H]. by rewrite (space_is_ascii c Hc), IH.
Qed.

Lemma rstrip_cons_nonspace (c : ascii) (s : string) :
  is_space c = false -> rstrip (String c s) = String c (rstrip s).
Proof. intros Hc. simpl. destruct (rstrip s); [by rewrite Hc|done]. Qed.

Lemma rstrip_idem (s : string) : rstrip (rstrip s) = rstrip s.
Proof.
  induction s as [|c s IH]; [done|]. simpl.
  destruct (rstrip s) as [|c' r] eqn:E.
  - destruct (is_space c) eqn:Hc; [done|]. simpl. by rewrite Hc.
  - change (rstrip (String c (String c' r)))
      with (match rstrip (String c' r) with
            | EmptyString => if is_space c then EmptyString else String c EmptyString
            | r' => String c r'
            end).
    by rewrite IH.
Qed.

Lemma lstrip_shape (s : string) :
  lstrip s = "" \/ exists c s', lstrip s = String c s' /\ is_space c = false.
Proof.
  induction s as [|c s IH]; simpl; [by left|].
  destruct (is_space c) eqn:Hc; [done|]. right. eauto.
Qed.

Lemma lstrip_all_space (s : string) : all_space s = true -> lstrip s = "".
Proof.
  induction s as [|c s IH]; simpl; [done|].
  intros H. apply andb_true_iff in H as [-> H]. auto.
Qed.

Lemma upper_chars_all_space (s : string) :
  all_space (str_map upper_char s) = all_space s.
Proof.
  induction s as [|c s IH]; simpl; [done|]. by rewrite upper_char_space, IH.
Qed.

Lemma strip_idem (s : string) :
  strip (strip s) = strip s /\ lstrip (strip s) = strip s
  /\ rstrip (strip s) = strip s.
Proof.
  unfold strip. destruct (lstrip_shape s) as [->|(c & s' & -> & Hc)].
  - done.
  - rewrite (rstrip_cons_nonspace c s' Hc).
    assert (Hl : lstrip (String c (rstrip s')) = String c (rstrip s'))
      by (cbn [lstrip]; by rewrite Hc).
    rewrite Hl, (rstrip_cons_nonspace c _ Hc), rstrip_idem. done.
Qed.

Lemma lstrip_ascii (s : string) : is_ascii s = true -> is_ascii (lstrip s) = true.
Proof.
  induction s as [|c s IH]; [done|]. intros H. cbn [lstrip].
  destruct (is_space c); [|done]. simpl in H. apply andb_true_iff in H as [_ H].
  auto.
Qed.

Lemma rstrip_ascii (s : string) : is_ascii s = true -> is_ascii (rstrip s) = true.
Proof.
  induction s as [|c s IH]; [done|]. intros H. simpl in H.
  apply andb_true_iff in H as [Hc H]. specialize (IH H). simpl.
  destruct (rstrip s) as [|c' r].
  - destruct (is_space c); [done|]. simpl. by rewrite Hc.
  - change (is_ascii (String c (String c' r)))
      with ((nat_of_ascii c <? 128)%nat && is_ascii (String c' r)).
    by rewrite Hc, IH.
Qed.

Lemma upper_chars_lstrip (s : string) :
  str_map upper_char (lstrip s) = lstrip (str_map upper_char s).
Proof.
  induction s as [|c s IH]; [done|]. simpl.
  rewrite upper_char_space. destruct (is_space c); [apply IH|done].
Qed.

Lemma upper_chars_rstrip (s : string) :
  str_map upper_char (rstrip s) = rstrip (str_map upper_char s).
Proof.
  induction s as [|c s IH]; [done|]. simpl. rewrite <- IH.
  destruct (rstrip s) as [|c' r]; simpl.
  - rewrite upper_char_space. by destruct (is_space c).
  - done.
Qed.

Lemma upper_chars_idem (s : string) :
  str_map upper_char (str_map upper_char s) = str_map upper_char s.
Proof.
  induction s as [|c s IH]; [done|]. simpl.
  assert (Hc : upper_char (upper_char c) = upper_char c)
    by (destruct c as [[] [] [] [] [] [] [] []]; reflexivity).
  by rewrite Hc, IH.
Qed.

Lemma lower_upper_chars (s : string) :
  str_map lower_char (str_map upper_char s) = str_map lower_char s.
Proof.
  induction s as [|c s IH]; [done|]. simpl.
  assert (Hc : lower_char (upper_char c) = lower_char c)
    by (destruct c as [[] [] [] [] [] [] [] []]; reflexivity).
  by rewrite Hc, IH.
Qed.

Lemma lower_chars_idem (s : string) :
  str_map lower_char (str_map lower_char s) = str_map lower_char s.
Proof.
  induction s as [|c s IH]; [done|]. simpl.
  assert (Hc : lower_char (lower_char c) = lower_char c)
    by (destruct c as [[] [] [] [] [] [] [] []]; reflexivity).
  by rewrite Hc, IH.
Qed.

Lemma upper_ascii (s : string) :
  is_ascii s = true -> upper s = str_map upper_char s.
Proof. intros H. unfold upper. by rewrite H. Qed.

Lemma lower_ascii (s : string) :
  is_ascii s = true -> lower s = str_map lower_char s.
Proof. intros H. unfold lower. by rewrite H. Qed.

(** On ASCII text [upper] is idempotent and commutes with [strip]. *)
Lemma upper_facts_ascii (s : string) :
  is_ascii s = true ->
  upper (upper s) = upper s
  /\ upper (strip (upper s)) = strip (upper (upper s)).
Proof.
  intros H. rewrite (upper_ascii s H).
  assert (Hu : is_ascii (str_map upper_char s) = true)
    by (by rewrite is_ascii_upper_chars).
  rewrite (upper_ascii _ Hu), upper_chars_idem. split; [done|].
  assert (Hs : is_ascii (strip (str_map upper_char s)) = true)
    by (unfold strip; by apply rstrip_ascii, lstrip_ascii).
  rewrite (upper_ascii _ Hs). unfold strip.
  by rewrite upper_chars_rstrip, upper_chars_lstrip, upper_chars_idem.
Qed.

End StripFacts.

(** X20: an input made of whitespace only (or empty) is treated as no term:
    the page shows the prompt to enter a term, nothing is run even on a
    click, every entry the script stored stays in the session, and no widget
    value is kept. *)
Theorem blank_input_only_prompts
    (w : world) (session : pydict session_value) (text_input : string)
    (sample_size : Z) (analyze_button : bool) (choice : nat)
    (Hblank : all_space text_input = true) :
  strip (upper text_input) = ""
  /\ exists pg,
       dashboard_main w session text_input sample_size analyze_button choice
       = Some pg
       /\ page_events pg
          = [StInfo "👆 Enter a slang term in the sidebar to get started!"]
       /\ page_view pg = None
       /\ forall k, Dict.get k (page_session pg) = script_entry session k.
Proof.
  assert (Hs : strip (upper text_input) = "").
  { rewrite (upper_ascii _ (all_space_ascii _ Hblank)).
    unfold strip. rewrite lstrip_all_space; [done|].
    by rewrite upper_chars_all_space. }
  split; [exact Hs|]. unfold dashboard_main, dashboard_script. rewrite Hs.
  cbn [String.eqb fmap option_fmap option_map].
  eexists. split; [reflexivity|]. split; [done|]. split; [done|].
  intros k. by apply quiet_run_get.
Qed.


(** X21: the term normalisation of the dashboard (upper-case, then strip) is
    idempotent, given that upper-casing the input twice is the same as once
    and that upper-casing commutes with stripping on the upper-cased input
    (both hold on ASCII text, [upper_facts_ascii]): the normalised term has
    no leading or trailing whitespace, and entering it again gives the same
    term, hence the same page. *)
Theorem term_normalisation_idempotent
    (w : world) (session : pydict session_value) (text_input : string)
    (sample_size : Z) (analyze_button : bool) (choice : nat)
    (Hidem : upper (upper text_input) = upper text_input)
    (Hcomm : upper (strip (upper text_input))
             = strip (upper (upper text_input))) :
  let slang_term := strip (upper text_input) in
  strip (upper slang_term) = slang_term
  /\ lstrip slang_term = slang_term
  /\ rstrip slang_term = slang_term
  /\ upper slang_term = slang_term
  /\ dashboard_main w session slang_term sample_size analyze_button choice
     = dashboard_main w session text_input sample_size analyze_button choice.
Proof.
  intros slang_term.
  assert (Hup : upper slang_term = slang_term).
  { subst slang_term. by rewrite Hcomm, Hidem. }
  destruct (strip_idem (upper text_input)) as (Hstrip & Hl & Hr).
  fold slang_term in Hstrip, Hl, Hr.
  assert (Hnorm : strip (upper slang_term) = slang_term) by (by rewrite Hup).
  split; [exact Hnorm|]. split; [exact Hl|]. split; [exact Hr|].
  split; [exact Hup|].
  unfold dashboard_main, dashboard_script. fold slang_term. by rewrite Hnorm.
Qed.


(** X22: for a term made of ASCII characters the extraction schema depends
    on the term only up to letter case: the upper-cased term used by the
    dashboard, the lower-cased term and the raw term give the same letter
    fields and the same tool. *)
Theorem schema_ignores_letter_case (slang_term : string)
    (Hascii : is_ascii slang_term = true) :
  letter_properties (upper slang_term) = letter_properties slang_term
  /\ letter_properties (lower slang_term) = letter_properties slang_term
  /\ parse_tool (upper slang_term) = parse_tool slang_term
  /\ parse_tool (lower slang_term) = parse_tool slang_term.
Proof.
  assert (Hlu : lower (upper slang_term) = lower slang_term).
  { rewrite (upper_ascii _ Hascii), (lower_ascii _ Hascii).
    rewrite lower_ascii by (by rewrite is_ascii_upper_chars).
    apply lower_upper_chars. }
  assert (Hll : lower (lower slang_term) = lower slang_term).
  { rewrite (lower_ascii _ Hascii).
    rewrite lower_ascii by (by rewrite is_ascii_lower_chars).
    apply lower_chars_idem. }
  assert (Hu : letter_properties (upper slang_term) = letter_properties slang_term)
    by (unfold letter_properties; by rewrite Hlu).
  assert (Hl : letter_properties (lower slang_term) = letter_properties slang_term)
    by (unfold letter_properties; by rewrite Hll).
  split; [exact Hu|]. split; [exact Hl|].
  unfold parse_tool. by rewrite Hu, Hl.
Qed.


(** * More on the admission gate *)

Section ScheduleFacts.
Context {R : Type}.
Variable K : nat.
Variable ops : nat -> R.

Lemma run_measure (evs : list event) (g0 g : gate R) :
  run ops evs g0 = Some g -> length evs + measure g = measure g0.
Proof.
  revert g0. induction evs as [|e evs IH]; intros g0 H; simpl in H.
  - by injection H as <-.
  - destruct (step ops g0 e) as [g1|] eqn:Hs; [|done].
    apply step_measure in Hs. specialize (IH _ H). simpl. lia.
Qed.

Lemma run_reachable (n : nat) (evs : list event) (g0 g : gate R) :
  reachable K ops n g0 -> run ops evs g0 = Some g -> reachable K ops n g.
Proof.
  revert g0. induction evs as [|e evs IH]; intros g0 Hr H; simpl in H.
  - by injection H as <-.
  - destruct (step ops g0 e) as [g1|] eqn:Hs; [|done].
    eapply IH; [|done]. by eapply reach_step.
Qed.

End ScheduleFacts.

(** X23: whatever the order in which the semaphore is entered and calls
    complete, a batch of [n] operations takes at most [2 * n] events, each
    operation entering and completing at most once; after [2 * n] events
    every result is in place, by position; and before that, with at least one
    permit, some operation can always proceed (no deadlock). *)
Theorem every_interleaving_is_bounded
    {R : Type} (K : nat) (ops : nat -> R) (n : nat)
    (evs : list event) (g : gate R)
    (Hrun : run ops evs (gather_init K n) = Some g) :
  length evs + 2 * queued g + in_flight g = 2 * n
  /\ length evs <= 2 * n
  /\ length (slots g) = n
  /\ (length evs = 2 * n -> collect (slots g) = Some (ops <$> seq 0 n))
  /\ (1 <= K -> length evs < 2 * n ->
      exists e g', step ops g e = Some g').
Proof.
  pose proof (run_measure ops _ _ _ Hrun) as Hm.
  rewrite gather_init_measure in Hm. unfold measure in Hm.
  assert (Hreach : reachable K ops n g)
    by (eapply run_reachable; [constructor|done]).
  pose proof (reachable_inv _ _ _ _ Hreach) as Hinv.
  split; [lia|]. split; [lia|]. split; [apply Hinv|]. split.
  - intros Hfull. destruct Hinv as (Hlen & _ & Hres).
    rewrite (collect_finished ops _ 0), Hlen; [done| | |done].
    + unfold queued in Hm. lia.
    + unfold in_flight in Hm. lia.
  - intros HK Hlt.
    destruct (progress K ops (fun _ => 0) n g HK Hinv) as (e & g' & _ & Hs).
    + unfold measure. lia.
    + eauto.
Qed.

End CaseTables.

(** * The program at concrete inputs

    The inputs below are ASCII text, on which the case tables are never
    consulted. *)

Existing Instance plain_tables.

Arguments Raised {A} msg.
Arguments Returned {A} a.
Arguments Queued {R}.
Arguments InFlight {R}.
Arguments Finished {R} r.
Arguments Gate {R} _ _.
Arguments sem_value {R} _.
Arguments slots {R} _.

(** C1, as stated, fails: the schema built for "YOLO" has three letter
    fields, not four, because the properties are keyed by the letter itself;
    aggregating records that follow the schema gives a single bucket for
    'o'. *)
Lemma yolo_schema_has_three_fields :
  length (os_required (prop_letter_breakdown (parse_tool "YOLO")))
    <> String.length "YOLO"
  /\ Dict.keys (os_properties (prop_letter_breakdown (parse_tool "YOLO")))
     = ["y"; "o"; "l"]
  /\ Dict.keys (letter_aggregation [yolo_record; yolo_record])
     = ["y"; "o"; "l"]
  /\ Dict.get "o" (letter_aggregation [yolo_record; yolo_record])
     = Some ["Only"; "Only"].
Proof. repeat split; try reflexivity. vm_compute. lia. Qed.

Lemma fan_out_keeps_every_slot_witness :
  1 <= 3
  /\ parse_with_sonnet last_first demo_client ["a"; "b"; "c"] "YOLO"
     = Some (structuring_outputs demo_client ["a"; "b"; "c"] "YOLO")
  /\ length (structuring_outputs demo_client ["a"; "b"; "c"] "YOLO") = 3
  /\ structuring_outputs demo_client ["a"; "b"; "c"] "YOLO" !! 0
     = Some (error_record "YOLO" "overloaded").
Proof.
  assert (H3 : 1 <= 3) by lia.
  destruct (fan_out_keeps_every_slot 3 H3 last_first demo_client
              ["a"; "b"; "c"] "YOLO") as (_ & _ & Hp & Hl & _ & He).
  split; [exact H3|]. split; [exact Hp|]. split; [exact Hl|].
  apply (He 0 "a" "overloaded"); reflexivity.
Defined.

(** C4, as stated, fails: with the credential missing the program prints
    the error message and still ends with exit status 0. *)
Lemma missing_credential_exits_zero :
  env_api_key (demo_world None) = None
  /\ script (demo_world None) "YOLO" 50
     = Some (["Error: ANTHROPIC_API_KEY environment variable not set"], 0%Z).
Proof. split; reflexivity. Qed.

Lemma generation_errors_are_filtered_witness :
  exists hs,
    analyze_with_haiku last_first abc_client "YOLO" 3 = Some hs
    /\ hs = ["A"; "B"]
    /\ exists out',
         run_analysis
           {| env_api_key := Some "sk-test";
              connect := fun _ => Returned abc_client;
              haiku_order := last_first;
              sonnet_order := last_first |} "YOLO" 3 []
         = Some (out', Returned {| haiku_results := hs;
                                   parsed_results :=
                                     structuring_outputs abc_client hs "YOLO" |}).
Proof.
  destruct (generation_errors_are_filtered last_first abc_client "YOLO" 3)
    as (hs & Hhs & _ & _ & _ & Hrun & _ & _ & Habc).
  exists hs. split; [exact Hhs|].
  split; [congruence|].
  apply (Hrun {| env_api_key := Some "sk-test";
                 connect := fun _ => Returned abc_client;
                 haiku_order := last_first;
                 sonnet_order := last_first |} "sk-test" []); reflexivity.
Defined.

Lemma failed_call_yields_error_record_witness :
  sonnet_create demo_client 0 (parse_tool "YOLO") (sonnet_prompt "a" "YOLO")
    = Raised "overloaded"
  /\ parse_single_sonnet demo_client 0 "a" "YOLO"
     = error_record "YOLO" "overloaded".
Proof.
  split; [reflexivity|].
  apply (failed_call_yields_error_record demo_client 0 "a" "YOLO" "overloaded").
  reflexivity.
Defined.

Lemma at_most_ten_in_flight_witness :
  let g0 : gate nat := {| sem_value := 9; slots := [InFlight; Queued] |} in
  reachable semaphore_permits (fun i => i) 2 g0 /\ in_flight g0 <= 10.
Proof.
  intros g0.
  assert (Hr : reachable semaphore_permits (fun i => i) 2 g0).
  { apply (reach_step _ _ _ (gather_init semaphore_permits 2) (Enter 0)).
    - apply reach_init.
    - reflexivity. }
  split; [exact Hr|].
  exact (proj1 (at_most_ten_in_flight (fun i => i) 2 g0 Hr)).
Defined.

Lemma get_api_key_rejects_unset_and_empty_witness :
  get_api_key (demo_world (Some ""))
    = Raised "ANTHROPIC_API_KEY environment variable not set"
  /\ get_api_key (demo_world None)
     = Raised "ANTHROPIC_API_KEY environment variable not set"
  /\ get_api_key (demo_world (Some "sk-test")) = Returned "sk-test".
Proof.
  split; [|split].
  - apply (proj1 (get_api_key_rejects_unset_and_empty (demo_world (Some "")))).
    right. reflexivity.
  - apply (proj1 (get_api_key_rejects_unset_and_empty (demo_world None))).
    left. reflexivity.
  - apply (proj1 (proj2 (get_api_key_rejects_unset_and_empty
                           (demo_world (Some "sk-test"))))).
    split; [reflexivity|discriminate].
Defined.

Lemma generation_survivors_by_outcome_witness :
  analyze_with_haiku last_first abc_client "YOLO" 3 = Some ["A"; "B"]
  /\ length ["A"; "B"] <= Z.to_nat 3.
Proof.
  destruct (generation_survivors_by_outcome last_first abc_client "YOLO" 3)
    as [Heq Hall].
  split; [exact Heq|].
  exact (proj1 (Hall ["A"; "B"] Heq)).
Defined.

Lemma cli_empty_run_witness :
  script (demo_world (Some "sk-test")) "YOLO" 0
  = Some ([ "Analyzing 'YOLO' with 0 samples...";
            "Generated 0 interpretations";
            "Parsed 0 results";
            nl ++ "=== Results for 'YOLO' ===";
            "Valid results: 0";
            nl ++ "Top interpretations:" ], 0%Z).
Proof.
  refine (proj2 (proj2 (cli_empty_run (demo_world (Some "sk-test")) "sk-test"
                          "YOLO" demo_client 0 _ _ _ _)));
    [lia|reflexivity|reflexivity|reflexivity].
Defined.

Lemma first_tool_input_returned_verbatim_witness :
  parse_single_sonnet blank_client 0 "You Only Live Once" "YOLO" = blank_record.
Proof.
  apply (first_tool_input_returned_verbatim blank_client 0
           "You Only Live Once" "YOLO" [] [] blank_record).
  - intros b [].
  - reflexivity.
Defined.

Lemma run_analysis_result_shape_witness :
  exists out' res,
    run_analysis (demo_world (Some "sk-test")) "YOLO" 3 [] = Some (out', Returned res)
    /\ length (parsed_results res) = length (haiku_results res).
Proof.
  eexists _, _. split; [reflexivity|].
  refine (proj1 (run_analysis_result_shape (demo_world (Some "sk-test"))
                   "YOLO" 3 [] _ _ _)).
  reflexivity.
Defined.

Lemma dashboard_pipeline_agrees_with_cli_witness :
  get_api_key (demo_world (Some "sk-test")) = Returned "sk-test"
  /\ exists evs r,
       run_analysis_with_progress (demo_world (Some "sk-test")) "YOLO" 3 "sk-test"
       = Some (evs, r).
Proof.
  split; [reflexivity|].
  refine (proj1 (dashboard_pipeline_agrees_with_cli
                   (demo_world (Some "sk-test")) "YOLO" 3 "sk-test" _)).
  reflexivity.
Defined.

Lemma cli_summary_counts_witness :
  sum_list_with snd
    (most_common 5 (Counter (cli_meanings [yolo_record; yolo_record])))
  = length (cli_valid_results [yolo_record; yolo_record]).
Proof.
  apply (proj2 (proj2 (proj2 (proj2
           (cli_summary_counts [yolo_record; yolo_record]))))).
  vm_compute. lia.
Defined.

Lemma no_data_iff_no_valid_record_witness :
  display_results
    {| haiku_results := ["x"];
       parsed_results := [error_record "YOLO" "overloaded"; blank_record] |}
  = None.
Proof.
  apply (proj1 (no_data_iff_no_valid_record "YOLO"
                  {| haiku_results := ["x"];
                     parsed_results :=
                       [error_record "YOLO" "overloaded"; blank_record] |} 0)).
  intros r [<-|[<-|[]]]; reflexivity.
Defined.

Lemma dashboard_valid_within_cli_valid_witness :
  valid_result yolo_record = true /\ no_error yolo_record = true.
Proof.
  split; [reflexivity|].
  apply (proj2 (proj2 (dashboard_valid_within_cli_valid [yolo_record]))).
  reflexivity.
Defined.

Lemma pie_slices_preserve_counts_witness :
  top_slices (Counter ["a"; "b"; "a"]) = sort_desc (Counter ["a"; "b"; "a"]).
Proof.
  apply (proj1 (proj2 (proj2 (pie_slices_preserve_counts
                                (Counter ["a"; "b"; "a"]))))).
  vm_compute. lia.
Defined.

Lemma top_chart_total_bounded_witness :
  exists agg,
    display_results {| haiku_results := ["x"]; parsed_results := [yolo_record] |}
    = Some agg
    /\ sum_list_with snd (top_slices (meaning_counts agg)) <= length (agg_valid agg).
Proof.
  eexists. split; [reflexivity|].
  refine (proj1 (top_chart_total_bounded
                   {| haiku_results := ["x"]; parsed_results := [yolo_record] |}
                   _ _)).
  reflexivity.
Defined.

Lemma top_interpretation_has_max_count_witness :
  exists agg n,
    display_results
      {| haiku_results := ["x"]; parsed_results := [yolo_record; yolo_record] |}
    = Some agg
    /\ In (top_interpretation (meaning_counts agg), n) (meaning_counts agg).
Proof.
  destruct (top_interpretation_has_max_count
              {| haiku_results := ["x"];
                 parsed_results := [yolo_record; yolo_record] |}
              _ eq_refl) as (n & Hin & _).
  eexists _, n. split; [reflexivity|exact Hin].
Defined.

Lemma caption_bounded_witness :
  caption "You Only Live Once" = "You Only Live Once".
Proof.
  apply (proj1 (proj2 (caption_bounded "You Only Live Once"))).
  vm_compute. lia.
Defined.

Lemma letter_label_shows_first_occurrence_witness :
  map (letter_label (chars (lower "YOLO"))) (chars (lower "YOLO")) !! 3
  = Some "O (position 2)".
Proof.
  refine (proj1 (proj2 (proj2
            (letter_label_shows_first_occurrence "YOLO" 3 "o" _)))).
  reflexivity.
Defined.


Lemma conformant_records_give_letter_data_witness :
  exists v slices,
    display_results_view "YOLO"
      {| haiku_results := ["x"]; parsed_results := [yolo_record] |} 3
    = ([KeyedWidget (selector_key "YOLO") (view_selected v)], Some v)
    /\ view_letter v = LetterPie slices
    /\ In (view_selected v) (chars (lower "YOLO")).
Proof.
  refine (conformant_records_give_letter_data "YOLO"
            {| haiku_results := ["x"]; parsed_results := [yolo_record] |}
            _ 3 eq_refl _ _).
  - intros r [<-|[]]. eexists. split; [reflexivity|].
    intros k [<-|[<-|[<-|[]]]]; reflexivity.
  - vm_compute. lia.
Defined.

Lemma results_key_injective_witness :
  "A_1" = "A_1" /\ (20 = 20)%Z
  /\ startswith "results_" (results_key "A_1" 20) = true.
Proof.
  exact (results_key_injective "A_1" "A_1" 20 20 eq_refl).
Defined.

Lemma analyze_click_replaces_cache_witness :
  exists pg,
    dashboard_main
      {| env_api_key := Some "sk-test";
         connect := fun _ => Returned abc_client;
         haiku_order := last_first;
         sonnet_order := last_first |}
      demo_session " yolo " 3 true 0 = Some pg
    /\ Dict.get "results_FOMO_50" (page_session pg) = None
    /\ Dict.get "letter_selector_FOMO" (page_session pg) = None
    /\ Dict.get "letter_selector_YOLO" (page_session pg) = Some (SWidget "y").
Proof.
  destruct (analyze_click_replaces_cache
              {| env_api_key := Some "sk-test";
                 connect := fun _ => Returned abc_client;
                 haiku_order := last_first;
                 sonnet_order := last_first |}
              demo_session " yolo " "sk-test" abc_client 3 0)
    as (pg & Hpg & _ & Hother & Hsel & _);
    [discriminate|reflexivity|reflexivity|reflexivity|].
  exists pg. split; [exact Hpg|]. split; [|split].
  - rewrite (Hother "results_FOMO_50"); [reflexivity|discriminate|discriminate].
  - rewrite (Hother "letter_selector_FOMO"); [reflexivity|discriminate|discriminate].
  - exact Hsel.
Defined.

Lemma rerun_without_click_uses_cache_only_witness :
  exists pg,
    dashboard_main (demo_world None) demo_session "fomo" 50 false 0 = Some pg
    /\ Dict.get "letter_selector_FOMO" (page_session pg) = Some (SWidget "f")
    /\ exists pg',
         dashboard_main (demo_world None) demo_session "yolo" 50 false 0 = Some pg'
         /\ page_events pg' = [] /\ page_view pg' = None.
Proof.
  destruct (rerun_without_click_uses_cache_only (demo_world None) blank_world
              demo_session "fomo" 50 0) as (_ & pg & Hpg & _ & _ & _ & Hshown).
  destruct (rerun_without_click_uses_cache_only (demo_world None) blank_world
              demo_session "yolo" 50 0) as (_ & pg' & Hpg' & _ & _ & Hblank & _).
  exists pg. split; [exact Hpg|]. split.
  - refine (proj2 (Hshown {| haiku_results := ["x"];
                             parsed_results := [yolo_record] |} _ _));
      [discriminate|reflexivity].
  - exists pg'. split; [exact Hpg'|]. apply Hblank; [discriminate|reflexivity].
Defined.

Lemma failed_click_clears_cache_witness :
  exists pg,
    dashboard_main (demo_world None) demo_session "fomo" 50 true 0 = Some pg
    /\ page_session pg = []
    /\ page_view pg = None.
Proof.
  destruct (failed_click_clears_cache (demo_world None) demo_session "fomo" 50 0)
    as (pg & Hpg & Hv & _).
  - discriminate.
  - left. eexists. reflexivity.
  - exists pg. split; [exact Hpg|]. split; [|exact Hv].
    injection Hpg as <-. reflexivity.
Defined.

Lemma blank_input_only_prompts_witness :
  exists pg,
    dashboard_main blank_world demo_session "   " 50 true 0 = Some pg
    /\ Dict.get "results_FOMO_50" (page_session pg)
       = Dict.get "results_FOMO_50" demo_session
    /\ Dict.get "letter_selector_FOMO" (page_session pg) = None.
Proof.
  destruct (blank_input_only_prompts blank_world demo_session "   " 50 true 0)
    as (_ & pg & Hpg & _ & _ & Hget); [reflexivity|].
  exists pg. split; [exact Hpg|]. split; rewrite Hget; reflexivity.
Defined.

Lemma term_normalisation_idempotent_witness :
  strip (upper (strip (upper "  yolo "))) = "YOLO"
  /\ dashboard_main blank_world demo_session "YOLO" 50 false 0
     = dashboard_main blank_world demo_session "  yolo " 50 false 0.
Proof.
  destruct (term_normalisation_idempotent blank_world demo_session "  yolo "
              50 false 0 eq_refl eq_refl) as (Hnorm & _ & _ & _ & Hsame).
  split; [exact Hnorm|exact Hsame].
Defined.

Lemma schema_ignores_letter_case_witness :
  parse_tool (upper "Yolo") = parse_tool "Yolo".
Proof.
  refine (proj1 (proj2 (proj2 (schema_ignores_letter_case "Yolo" _)))).
  reflexivity.
Defined.

Lemma every_interleaving_is_bounded_witness :
  exists g : gate nat,
    run (fun i => i) [Enter 1; Enter 0; Exit 1] (gather_init 2 2) = Some g
    /\ length [Enter 1; Enter 0; Exit 1] <= 2 * 2.
Proof.
  eexists. split; [reflexivity|].
  refine (proj1 (proj2 (every_interleaving_is_bounded 2 (fun i => i) 2
                          [Enter 1; Enter 0; Exit 1] _ _))).
  reflexivity.
Defined.
